(** * Flocking in 2D: the per-frame update of the fish ("boids")

    A shallow embedding of the flocking demo (the file whose header reads
    "Flocking in 2D"): the steering forces [cohesion], [avoid], [align], the
    unused [boundaries], and the per-frame [render] loop that integrates
    every fish in place.

    Numbers.  JavaScript numbers are modelled as real numbers ([R]): the
    development is about the exact arithmetic the code denotes, rounding is
    out of scope.  The one place where JavaScript leaves the reals is a
    division by zero (the quotient is +-Infinity or NaN); [JS.div] returns
    [None] there, and every function that divides lives in the [option]
    monad, so that "this division is guarded" is a theorem and not a
    convention.  The heading takes the arctangent of its quotient, which
    brings an infinite quotient back to the reals ([JS.atan_div]). *)

From Stdlib Require Import Reals Lra Lia List Bool Arith.
Import ListNotations.

Open Scope R_scope.

(** ** JavaScript number operations used by the program *)

Module JS.

(** [a > b] and [a < b]. *)
Definition gtb (a b : R) : bool := if Rgt_dec a b then true else false.
Definition ltb (a b : R) : bool := if Rlt_dec a b then true else false.

(** [a / b]; [None] when the divisor is zero. *)
Definition div (a b : R) : option R :=
  if Req_dec_T b 0 then None else Some (a / b).

(** [a || b] on numbers: [b] when [a] is falsy, that is zero. *)
Definition or (a b : R) : R := if Req_dec_T a 0 then b else a.

(** [Math.max], [Math.min], [Math.sign] and [Math.pow(a, 2)];
    [Math.sqrt], [Math.atan] and [Math.PI] are [sqrt], [atan] and [PI]. *)
Definition max (a b : R) : R := Rmax a b.
Definition min (a b : R) : R := Rmin a b.
Definition sign (a : R) : R :=
  if Rgt_dec a 0 then 1 else if Rlt_dec a 0 then -1 else 0.
Definition pow2 (a : R) : R := a ^ 2.

(** [Math.atan(a / b)].  For [b] zero the quotient is [+Infinity] when [a]
    is positive and [-Infinity] when it is negative, of arctangent [PI / 2]
    and [- PI / 2]; it is [NaN], and so is the result, when [a] is zero
    too.  The zero of the reals stands for [+0]: a divisor [-0] exchanges
    the two infinities. *)
Definition atan_div (a b : R) : option R :=
  if Req_dec_T b 0 then
    if Rgt_dec a 0 then Some (PI / 2)
    else if Rlt_dec a 0 then Some (- (PI / 2))
    else None
  else Some (atan (a / b)).

End JS.

(** The option monad threads a failed division through the callers. *)
Definition bind {A B : Type} (m : option A) (k : A -> option B) : option B :=
  match m with
  | Some a => k a
  | None => None
  end.

Notation "x <- m ;; k" := (bind m (fun x => k))
  (at level 61, m at next level, right associativity).

(** ** THREE.Vector3 *)

(** Modelled from the spec: [THREE.Vector3] is the vector class of the
    three.js library the program imports; the library is not part of the
    sources.  The methods below are the ones the program calls, with the
    meaning the spec gives them (componentwise sum, difference, scaling and
    clamp, Euclidean length and distance, scaling to unit length) and the
    library's conventions: [divideScalar s] multiplies by [1 / s], and
    [normalize] divides by [length() || 1], so the zero vector is left as it
    is. *)
Module Vector3.

Record t : Type := mk { x : R; y : R; z : R }.

Definition zero : t := mk 0 0 0.

Definition add (v w : t) : t := mk (x v + x w) (y v + y w) (z v + z w).
Definition sub (v w : t) : t := mk (x v - x w) (y v - y w) (z v - z w).
Definition subVectors (a b : t) : t := mk (x a - x b) (y a - y b) (z a - z b).

Definition multiplyScalar (v : t) (s : R) : t :=
  mk (x v * s) (y v * s) (z v * s).

Definition divideScalar (v : t) (s : R) : option t :=
  r <- JS.div 1 s ;; Some (multiplyScalar v r).

Definition clampScalar (v : t) (minVal maxVal : R) : t :=
  mk (JS.max minVal (JS.min maxVal (x v)))
     (JS.max minVal (JS.min maxVal (y v)))
     (JS.max minVal (JS.min maxVal (z v))).

Definition length (v : t) : R := sqrt (x v * x v + y v * y v + z v * z v).

Definition normalize (v : t) : option t :=
  divideScalar v (JS.or (length v) 1).

Definition distanceToSquared (v w : t) : R :=
  let dx := x v - x w in
  let dy := y v - y w in
  let dz := z v - z w in
  dx * dx + dy * dy + dz * dz.

Definition distanceTo (v w : t) : R := sqrt (distanceToSquared v w).

End Vector3.

Import Vector3.

(** ** The program's constants *)

Definition fishSize : R := 7.

Definition boundaryWidth : R := 640.
Definition boundaryHeight : R := 320.
Definition boundaryMargin : R := 10.
Definition boundaryStrength : R := 65 / 10.

Definition cohesionRadius : R := 40.
Definition cohesionStrength : R := 15 / 10.
Definition alignmentRadius : R := 40.
Definition alignmentStrength : R := 1.
Definition avoidanceRadius : R := 25.
Definition avoidanceStrength : R := 4.
Definition maxFishSpeed : R := 4.
Definition maxFishForce : R := 4 / 100.

(** ** A fish *)

(** The mesh fields the simulation reads and writes.  [rotation_z] is
    [None] when the heading expression evaluates to [NaN]. *)
Record Fish : Type := mkFish {
  position : Vector3.t;
  velocity : Vector3.t;
  acceleration : Vector3.t;
  rotation_z : option R
}.

(** [dist > 0 && dist < radius], the neighbour test of the three scans. *)
Definition near (fish other : Fish) (radius : R) : bool :=
  let dist := distanceTo (position fish) (position other) in
  JS.gtb dist 0 && JS.ltb dist radius.

(** ** cohesion *)

(** The [forEach] of [cohesion]: the count and the positional sum. *)
Definition cohesion_scan (fishies : list Fish) (fish : Fish) : nat * Vector3.t :=
  fold_left
    (fun (acc : nat * Vector3.t) (other : Fish) =>
       let (count, sum) := acc in
       if near fish other (cohesionRadius + fishSize * 2)
       then (S count, add sum (position other))
       else (count, sum))
    fishies (0%nat, zero).

Definition cohesion (fishies : list Fish) (fish : Fish) : option Vector3.t :=
  let (count, sum) := cohesion_scan fishies fish in
  if (0 <? count)%nat then
    sum <- divideScalar sum (INR count) ;;
    let desired := sub sum (position fish) in
    desired <- normalize desired ;;
    let desired := multiplyScalar desired maxFishSpeed in
    let steer := sub desired (velocity fish) in
    Some (clampScalar steer (- maxFishForce) maxFishForce)
  else Some sum.

(** ** avoid *)

(** One iteration of the [forEach] of [avoid]. *)
Definition avoid_visit (fish : Fish) (acc : nat * Vector3.t) (other : Fish)
  : option (nat * Vector3.t) :=
  let (count, steer) := acc in
  let dist := distanceTo (position fish) (position other) in
  if JS.gtb dist 0 && JS.ltb dist avoidanceRadius then
    diff <- normalize (subVectors (position fish) (position other)) ;;
    diff <- divideScalar diff dist ;;
    Some (S count, add steer diff)
  else Some (count, steer).

Fixpoint avoid_scan (fish : Fish) (acc : nat * Vector3.t) (fishies : list Fish)
  : option (nat * Vector3.t) :=
  match fishies with
  | [] => Some acc
  | other :: rest => acc' <- avoid_visit fish acc other ;; avoid_scan fish acc' rest
  end.

Definition avoid (fishies : list Fish) (fish : Fish) : option Vector3.t :=
  acc <- avoid_scan fish (0%nat, zero) fishies ;;
  let (count, steer) := acc in
  steer <- (if (0 <? count)%nat then divideScalar steer (INR count) else Some steer) ;;
  let mag := sqrt (JS.pow2 (x steer) + JS.pow2 (y steer) + JS.pow2 (z steer)) in
  if JS.gtb mag 0 then
    steer <- normalize steer ;;
    let steer := multiplyScalar steer maxFishSpeed in
    let steer := sub steer (velocity fish) in
    Some (clampScalar steer (- maxFishForce) maxFishForce)
  else Some steer.

(** ** align *)

Definition align_scan (fishies : list Fish) (fish : Fish) : nat * Vector3.t :=
  fold_left
    (fun (acc : nat * Vector3.t) (other : Fish) =>
       let (count, sum) := acc in
       if near fish other alignmentRadius
       then (S count, add sum (velocity other))
       else (count, sum))
    fishies (0%nat, zero).

Definition align (fishies : list Fish) (fish : Fish) : option Vector3.t :=
  let (count, sum) := align_scan fishies fish in
  if (0 <? count)%nat then
    sum <- divideScalar sum (INR count) ;;
    sum <- normalize sum ;;
    let sum := multiplyScalar sum maxFishSpeed in
    let steer := sub sum (velocity fish) in
    Some (clampScalar steer (- maxFishForce) maxFishForce)
  else Some sum.

(** ** boundaries (defined by the program, its call is commented out) *)

Definition boundaries (fish : Fish) : Vector3.t :=
  let steer := zero in
  let steer :=
    if JS.ltb (x (position fish) - boundaryMargin) (- boundaryWidth)
    then add steer (mk 1 0 0) else steer in
  let steer :=
    if JS.gtb (x (position fish) + boundaryMargin) boundaryWidth
    then add steer (mk (-1) 0 0) else steer in
  let steer :=
    if JS.gtb (y (position fish) + boundaryMargin) boundaryHeight
    then add steer (mk 0 (-1) 0) else steer in
  let steer :=
    if JS.ltb (y (position fish) - boundaryMargin) (- boundaryHeight)
    then add steer (mk 0 1 0) else steer in
  clampScalar steer (- maxFishForce) maxFishForce.

(** ** render *)

(** The acceleration of [fish] after the three scaled forces were added to
    it (the statements under "Acceleration"). *)
Definition accelerate (fishies : list Fish) (fish : Fish) : option Vector3.t :=
  cohesionForce <- cohesion fishies fish ;;
  avoidanceForce <- avoid fishies fish ;;
  alignmentForce <- align fishies fish ;;
  let cohesionForce := multiplyScalar cohesionForce cohesionStrength in
  let avoidanceForce := multiplyScalar avoidanceForce avoidanceStrength in
  let alignmentForce := multiplyScalar alignmentForce alignmentStrength in
  let acc := add (acceleration fish) cohesionForce in
  let acc := add acc avoidanceForce in
  let acc := add acc alignmentForce in
  Some acc.

(** [Math.atan(v.y / v.x) - Math.PI / 2 * Math.sign(v.x)]. *)
Definition heading (v : Vector3.t) : option R :=
  a <- JS.atan_div (y v) (x v) ;; Some (a - PI / 2 * JS.sign (x v)).

(** The two [if]s that close the callback: a coordinate beyond its bound is
    multiplied by [-1]. *)
Definition wrap (p : Vector3.t) : Vector3.t :=
  let px :=
    if JS.gtb (x p) boundaryWidth || JS.ltb (x p) (- boundaryWidth)
    then x p * -1 else x p in
  let py :=
    if JS.gtb (y p) boundaryHeight || JS.ltb (y p) (- boundaryHeight)
    then y p * -1 else y p in
  mk px py (z p).

(** The fish after "Velocity", "Position", "Rotation" and the reset of the
    acceleration, before the boundary test. *)
Definition integrate (fish : Fish) (acc : Vector3.t) : Fish :=
  let vel := clampScalar (add (velocity fish) acc) (- maxFishSpeed) maxFishSpeed in
  let pos := add (position fish) vel in
  mkFish pos vel (multiplyScalar acc 0) (heading vel).

(** The callback of [fishies.forEach] in [render], applied to [fish] while
    the array holds [fishies]. *)
Definition update (fishies : list Fish) (fish : Fish) : option Fish :=
  acc <- accelerate fishies fish ;;
  let fish' := integrate fish acc in
  Some (mkFish (wrap (position fish')) (velocity fish')
               (acceleration fish') (rotation_z fish')).

(** [fishies.forEach] of [render].  The callback mutates the fish it is
    given, so the array the scans read is [done ++ todo]: the fish already
    visited hold their new state, the others their old one. *)
Fixpoint forEach_update (done todo : list Fish) : option (list Fish) :=
  match todo with
  | [] => Some done
  | fish :: rest =>
      fish' <- update (done ++ fish :: rest) fish ;;
      forEach_update (done ++ [fish']) rest
  end.

Definition render (fishies : list Fish) : option (list Fish) :=
  forEach_update [] fishies.

(** [n] frames. *)
Fixpoint frames (n : nat) (fishies : list Fish) : option (list Fish) :=
  match n with
  | O => Some fishies
  | S n' => fishies' <- render fishies ;; frames n' fishies'
  end.

(** ** init: a new fish *)

(** [newFish], with the five results of [Math.random()] it consumes given
    as arguments (each in [[0, 1)]); the mesh is created at the origin. *)
Definition newFish (u1 u2 u3 u4 u5 : R) : Fish :=
  let px := IZR (Int_part (u1 * boundaryWidth)) * (if JS.ltb u2 (5 / 10) then -1 else 1) in
  let py := IZR (Int_part (u3 * boundaryHeight)) * (if JS.ltb u4 (5 / 10) then -1 else 1) in
  let angle := u5 * 2 * PI in
  let vel := mk (cos angle) (sin angle) 0 in
  mkFish (mk px py 0) vel (mk 0 0 0) (heading vel).

(** ** The words of the specification

    The definitions of this section follow the prose description of the
    forces and of the tick, not the code; the theorems compare them with the
    code above. *)

(** Every component within [[lo, hi]]. *)
Definition within (lo hi : R) (v : Vector3.t) : Prop :=
  lo <= x v <= hi /\ lo <= y v <= hi /\ lo <= z v <= hi.

(** [0 < distance(a, o) < radius]. *)
Definition in_range (radius : R) (a o : Fish) : Prop :=
  0 < distanceTo (position a) (position o) < radius.

(** The agents of the flock within [radius] of [a], in flock order. *)
Definition included (radius : R) (flock : list Fish) (a : Fish) : list Fish :=
  filter (fun o => near a o radius) flock.

Definition vsum (vs : list Vector3.t) : Vector3.t := fold_right add zero vs.

Definition vdiv (v : Vector3.t) (d : R) : Vector3.t :=
  mk (x v / d) (y v / d) (z v / d).

(** Arithmetic mean of a non-empty list of vectors. *)
Definition mean (vs : list Vector3.t) : Vector3.t :=
  vdiv (vsum vs) (INR (List.length vs)).

Definition magnitude (v : Vector3.t) : R := sqrt ((x v)² + (y v)² + (z v)²).

(** Scaling to unit length; the zero vector has no direction and is kept. *)
Definition unit_vector (v : Vector3.t) : Vector3.t :=
  if Req_dec_T (magnitude v) 0 then v else vdiv v (magnitude v).

Definition clamp1 (m a : R) : R :=
  if Rlt_dec a (- m) then - m else if Rlt_dec m a then m else a.

(** Componentwise clamp to [+-m]. *)
Definition clamp_pm (m : R) (v : Vector3.t) : Vector3.t :=
  mk (clamp1 m (x v)) (clamp1 m (y v)) (clamp1 m (z v)).

(** Steering towards [desired]: unit length, scaled to the maximal speed,
    minus the current velocity, clamped to the maximal force. *)
Definition steer_towards (desired : Vector3.t) (a : Fish) : Vector3.t :=
  clamp_pm maxFishForce
    (sub (multiplyScalar (unit_vector desired) maxFishSpeed) (velocity a)).

(** The cohesion target: the mean position of the included agents. *)
Definition cohesion_target (flock : list Fish) (a : Fish) : Vector3.t :=
  mean (map position (included (cohesionRadius + 2 * fishSize) flock a)).

Definition cohesion_spec (flock : list Fish) (a : Fish) : Vector3.t :=
  match included (cohesionRadius + 2 * fishSize) flock a with
  | [] => zero
  | _ :: _ => steer_towards (sub (cohesion_target flock a) (position a)) a
  end.

(** [normalize(a.position - o.position) / distance(a, o)]. *)
Definition repulsion (a o : Fish) : Vector3.t :=
  vdiv (unit_vector (sub (position a) (position o)))
       (distanceTo (position a) (position o)).

(** The accumulated repulsions divided by the count (nothing to divide
    when no agent is included). *)
Definition avoid_average (flock : list Fish) (a : Fish) : Vector3.t :=
  match included avoidanceRadius flock a with
  | [] => zero
  | inc => mean (map (repulsion a) inc)
  end.

Definition avoid_spec (flock : list Fish) (a : Fish) : Vector3.t :=
  let avg := avoid_average flock a in
  if Rlt_dec 0 (magnitude avg) then steer_towards avg a else avg.

Definition align_spec (flock : list Fish) (a : Fish) : Vector3.t :=
  match included alignmentRadius flock a with
  | [] => zero
  | inc => steer_towards (mean (map velocity inc)) a
  end.

(** The tick once the forces are known to be defined: the acceleration
    after the three scaled forces were added, the agent after its step, and
    the flock after the agents were stepped one after the other. *)
Definition net_acceleration (flock : list Fish) (a : Fish) : Vector3.t :=
  add (add (add (acceleration a)
                (multiplyScalar (cohesion_spec flock a) cohesionStrength))
           (multiplyScalar (avoid_spec flock a) avoidanceStrength))
      (multiplyScalar (align_spec flock a) alignmentStrength).

Definition stepped (flock : list Fish) (a : Fish) : Fish :=
  let a' := integrate a (net_acceleration flock a) in
  mkFish (wrap (position a')) (velocity a') (acceleration a') (rotation_z a').

Fixpoint forEach_stepped (done todo : list Fish) : list Fish :=
  match todo with
  | [] => done
  | a :: rest => forEach_stepped (done ++ [stepped (done ++ a :: rest) a]) rest
  end.

Definition advance (flock : list Fish) : list Fish := forEach_stepped [] flock.

Fixpoint advance_n (n : nat) (fishies : list Fish) : list Fish :=
  match n with
  | O => fishies
  | S n' => advance_n n' (advance fishies)
  end.

(** Negation of a coordinate whose absolute value exceeds the bound. *)
Definition reflect_coord (bound c : R) : R :=
  if Rlt_dec bound (Rabs c) then - c else c.

(** No agent of the flock within [radius] of [a]. *)
Definition alone (radius : R) (flock : list Fish) (a : Fish) : Prop :=
  forall o, In o flock -> ~ in_range radius a o.

(** A tick in which every agent reads the pre-tick flock. *)
Fixpoint mapM {A B : Type} (f : A -> option B) (l : list A) : option (list B) :=
  match l with
  | [] => Some []
  | a :: rest => b <- f a ;; bs <- mapM f rest ;; Some (b :: bs)
  end.

Definition render_snapshot (flock : list Fish) : option (list Fish) :=
  mapM (update flock) flock.

(** Two agents in the same simulation state: the heading is derived from
    the velocity and never read back. *)
Definition same_motion (a b : Fish) : Prop :=
  position a = position b /\ velocity a = velocity b
  /\ acceleration a = acceleration b.

(** Two fish on the [x] axis, [56] apart: out of each other's reach before
    the tick, within the cohesion range once the first has moved. *)
Definition chaser : Fish := mkFish (mk 0 0 0) (mk 4 0 0) zero None.
Definition leader : Fish := mkFish (mk 56 0 0) (mk 1 0 0) zero None.

(** The simulation state of an agent, its heading forgotten. *)
Definition motion (a : Fish) : Fish :=
  mkFish (position a) (velocity a) (acceleration a) None.

(** The acceleration is a scratch value, zero between frames. *)
Definition rested (a : Fish) : Prop := acceleration a = zero.

(** Inside the rectangle of the boundaries. *)
Definition inside (p : Vector3.t) : Prop :=
  Rabs (x p) <= boundaryWidth /\ Rabs (y p) <= boundaryHeight.

(** ** init: the flock *)

Definition numFish : nat := 150.

(** The [for] loop of [init]: [n] more fish are pushed; [rnd k] is the
    result of the [k]-th call of [Math.random()], and [k] counts the calls
    made so far. *)
Fixpoint push_fish (n : nat) (rnd : nat -> R) (k : nat) (fishies : list Fish)
  : list Fish :=
  match n with
  | O => fishies
  | S n' =>
      push_fish n' rnd (k + 5)
        (fishies ++ [newFish (rnd k) (rnd (k + 1)%nat) (rnd (k + 2)%nat)
                             (rnd (k + 3)%nat) (rnd (k + 4)%nat)])
  end.

(** [fishies] as [init] leaves it: [numFish - 1] fish from the loop, then
    the specially coloured one. *)
Definition init_fishies (rnd : nat -> R) : list Fish :=
  let fishies := push_fish (numFish - 1) rnd 0 [] in
  let k := (5 * (numFish - 1))%nat in
  fishies ++ [newFish (rnd k) (rnd (k + 1)%nat) (rnd (k + 2)%nat)
                      (rnd (k + 3)%nat) (rnd (k + 4)%nat)].

(** ** The cubes demo *)

Module Cubes.

(** The fields of a cube mesh that the demo writes. *)
Record Cube : Type := mkCube {
  position_x : R;
  position_y : R;
  rotation_x : R;
  rotation_y : R
}.

(** [makeInstance] at the five abscissas of [init]. *)
Definition makeInstance (px : R) : Cube := mkCube px 0 0 0.

Definition cubes : list Cube :=
  [makeInstance (-600); makeInstance (-300); makeInstance 0;
   makeInstance 300; makeInstance 600].

(** The callback of [cubes.forEach] in [render]; [time] is
    [(Date.now() - start) * 0.001]. *)
Definition rotate (time : R) (cube : Cube) (ndx : nat) : Cube :=
  let speed := 1 + INR ndx * (4 / 10) in
  let rot := time * speed in
  mkCube (position_x cube) (Rabs (sin (time * speed)) * 300) rot rot.

Fixpoint forEach_rotate (time : R) (ndx : nat) (cs : list Cube) : list Cube :=
  match cs with
  | [] => []
  | cube :: rest => rotate time cube ndx :: forEach_rotate time (S ndx) rest
  end.

(** [render], given the milliseconds elapsed since [start]. *)
Definition render (elapsed : R) (cs : list Cube) : list Cube :=
  let time := elapsed * (1 / 1000) in
  forEach_rotate time 0 cs.

End Cubes.

(** ** The plotted surface (equations.js) *)

Module Plot.

Definition bounds : R := 10.

(** [a == b] on numbers. *)
Definition eqb (a b : R) : bool := if Req_dec_T a b then true else false.

(** [f]: the height at [(x, y)], constrained to the bounds. *)
Definition f (x y : R) : R :=
  let z := cos x - sin y in
  JS.min (JS.max z (- bounds)) bounds.

(** The test of [plot] that leaves a segment out: both ends on the
    boundary ([prev_y] is the height of the previous point). *)
Definition at_bounds (z prev_y : R) : bool :=
  eqb (Rabs z) bounds && eqb (Rabs prev_y) bounds.

End Plot.

(** ** Notions used by the further properties *)

(** A fish in the plane [z = 0]. *)
Definition planar (a : Fish) : Prop :=
  z (position a) = 0 /\ z (velocity a) = 0 /\ z (acceleration a) = 0.

Definition neg (v : Vector3.t) : Vector3.t := mk (- x v) (- y v) (- z v).

(** The fish reflected through the origin. *)
Definition flip (a : Fish) : Fish :=
  mkFish (neg (position a)) (neg (velocity a)) (neg (acceleration a)) (rotation_z a).

(** The largest change of a velocity component in one frame. *)
Definition maxTurn : R :=
  (cohesionStrength + avoidanceStrength + alignmentStrength) * maxFishForce.

(** The fish as [init] makes them. *)
Definition well_started (a : Fish) : Prop :=
  Rabs (x (position a)) <= boundaryWidth - 1
  /\ Rabs (y (position a)) <= boundaryHeight - 1
  /\ planar a
  /\ magnitude (velocity a) = 1
  /\ rested a.

(** What every frame keeps of a fish, given that the array has it. *)
Definition in_flight (a : Fish) : Prop :=
  rested a /\ planar a /\ within (- maxFishSpeed) maxFishSpeed (velocity a).

(** * Properties *)

(** Inequalities between absolute values, by cases on the signs. *)
Ltac solve_abs :=
  intros; unfold Rabs in *;
  repeat match goal with
         | |- context [Rcase_abs ?a] => destruct (Rcase_abs a)
         | H : context [Rcase_abs ?a] |- _ => destruct (Rcase_abs a)
         end;
  lra.

(** ** Numbers and vectors *)

Lemma gtb_true (a b : R) : JS.gtb a b = true <-> a > b.
Proof. unfold JS.gtb. destruct (Rgt_dec a b); split; intros; auto; discriminate. Qed.

Lemma gtb_false (a b : R) : JS.gtb a b = false <-> a <= b.
Proof.
  unfold JS.gtb. destruct (Rgt_dec a b); split; intros; auto; try discriminate; lra.
Qed.

Lemma ltb_true (a b : R) : JS.ltb a b = true <-> a < b.
Proof. unfold JS.ltb. destruct (Rlt_dec a b); split; intros; auto; discriminate. Qed.

Lemma ltb_false (a b : R) : JS.ltb a b = false <-> b <= a.
Proof.
  unfold JS.ltb. destruct (Rlt_dec a b); split; intros; auto; try discriminate; lra.
Qed.

Lemma div_Some (a b : R) : b <> 0 -> JS.div a b = Some (a / b).
Proof. intros H. unfold JS.div. destruct (Req_dec_T b 0); [contradiction | reflexivity]. Qed.

Lemma div_None (a : R) : JS.div a 0 = None.
Proof. unfold JS.div. destruct (Req_dec_T 0 0); [reflexivity | contradiction]. Qed.

Lemma or_1_neq_0 (a : R) : JS.or a 1 <> 0.
Proof. unfold JS.or. destruct (Req_dec_T a 0); lra. Qed.

Lemma vec_eq (v w : Vector3.t) :
  x v = x w -> y v = y w -> z v = z w -> v = w.
Proof. destruct v, w; simpl; intros; subst; reflexivity. Qed.

Lemma divideScalar_Some (v : Vector3.t) (s : R) :
  s <> 0 -> divideScalar v s = Some (multiplyScalar v (1 / s)).
Proof. intros H. unfold divideScalar. rewrite div_Some by assumption. reflexivity. Qed.

(** [normalize] never divides by zero: the library's [|| 1] is the guard. *)
Lemma normalize_Some (v : Vector3.t) :
  normalize v = Some (multiplyScalar v (1 / JS.or (length v) 1)).
Proof. unfold normalize. apply divideScalar_Some, or_1_neq_0. Qed.

Lemma length_nonneg (v : Vector3.t) : 0 <= length v.
Proof. apply sqrt_pos. Qed.

Lemma sum_squares_nonneg (a b c : R) : 0 <= a * a + b * b + c * c.
Proof. nra. Qed.

Lemma length_zero_iff (v : Vector3.t) : length v = 0 <-> v = zero.
Proof.
  split.
  - intros H. unfold length in H.
    apply sqrt_eq_0 in H; [| apply sum_squares_nonneg].
    apply vec_eq; simpl; nra.
  - intros ->. unfold length, zero. simpl.
    replace (0 * 0 + 0 * 0 + 0 * 0) with 0 by ring. apply sqrt_0.
Qed.

Lemma distanceTo_nonneg (v w : Vector3.t) : 0 <= distanceTo v w.
Proof. apply sqrt_pos. Qed.

Lemma distanceTo_self (v : Vector3.t) : distanceTo v v = 0.
Proof.
  unfold distanceTo, distanceToSquared. cbv zeta.
  replace ((x v - x v) * (x v - x v) + (y v - y v) * (y v - y v)
           + (z v - z v) * (z v - z v)) with 0 by ring.
  apply sqrt_0.
Qed.

(** Distance between two points that differ in [x] only. *)
Lemma distanceTo_along_x (v w : Vector3.t) :
  y v = y w -> z v = z w -> distanceTo v w = Rabs (x v - x w).
Proof.
  intros Hy Hz. unfold distanceTo, distanceToSquared. cbv zeta.
  rewrite Hy, Hz.
  replace ((x v - x w) * (x v - x w) + (y w - y w) * (y w - y w)
           + (z w - z w) * (z w - z w)) with (Rsqr (x v - x w))
    by (unfold Rsqr; ring).
  apply sqrt_Rsqr_abs.
Qed.

Lemma clamp_bounds (lo hi a : R) :
  lo <= hi -> lo <= JS.max lo (JS.min hi a) <= hi.
Proof.
  intros H. unfold JS.max, JS.min. split.
  - apply Rmax_l.
  - apply Rmax_lub; [assumption | apply Rmin_l].
Qed.

Lemma clamp_id (lo hi a : R) :
  lo <= a <= hi -> JS.max lo (JS.min hi a) = a.
Proof.
  intros [H1 H2]. unfold JS.max, JS.min.
  rewrite Rmin_right by assumption. apply Rmax_right. assumption.
Qed.

Lemma clampScalar_within (v : Vector3.t) (lo hi : R) :
  lo <= hi -> within lo hi (clampScalar v lo hi).
Proof.
  intros H. unfold within, clampScalar. simpl.
  repeat split; apply clamp_bounds; assumption.
Qed.

Lemma clampScalar_id (v : Vector3.t) (lo hi : R) :
  within lo hi v -> clampScalar v lo hi = v.
Proof.
  intros (Hx & Hy & Hz). apply vec_eq; simpl; apply clamp_id; assumption.
Qed.

Lemma within_zero (lo hi : R) : lo <= 0 <= hi -> within lo hi zero.
Proof. intros H. unfold within, zero. simpl. tauto. Qed.

Lemma add_zero_r (v : Vector3.t) : add v zero = v.
Proof. apply vec_eq; simpl; ring. Qed.

Lemma multiplyScalar_zero (s : R) : multiplyScalar zero s = zero.
Proof. apply vec_eq; simpl; ring. Qed.

Lemma multiplyScalar_0 (v : Vector3.t) : multiplyScalar v 0 = zero.
Proof. apply vec_eq; simpl; ring. Qed.

(** ** The code's vector operations and the specification's *)

Lemma length_magnitude (v : Vector3.t) : length v = magnitude v.
Proof. reflexivity. Qed.

Lemma multiplyScalar_vdiv (v : Vector3.t) (s : R) :
  multiplyScalar v (1 / s) = vdiv v s.
Proof. apply vec_eq; simpl; unfold Rdiv; ring. Qed.

Lemma normalize_unit_vector (v : Vector3.t) :
  normalize v = Some (unit_vector v).
Proof.
  rewrite normalize_Some. f_equal.
  unfold unit_vector, JS.or. rewrite length_magnitude.
  destruct (Req_dec_T (magnitude v) 0) as [_ | _].
  - apply vec_eq; simpl; field.
  - apply multiplyScalar_vdiv.
Qed.

Lemma clamp1_clamp (m a : R) :
  0 <= m -> JS.max (- m) (JS.min m a) = clamp1 m a.
Proof.
  intros Hm. unfold clamp1, JS.max, JS.min.
  destruct (Rlt_dec a (- m)) as [H1 | H1].
  - rewrite Rmin_right by lra. apply Rmax_left. lra.
  - destruct (Rlt_dec m a) as [H2 | H2].
    + rewrite Rmin_left by lra. apply Rmax_right. lra.
    + rewrite Rmin_right by lra. apply Rmax_right. lra.
Qed.

Lemma clampScalar_clamp_pm (m : R) (v : Vector3.t) :
  0 <= m -> clampScalar v (- m) m = clamp_pm m v.
Proof.
  intros Hm. unfold clampScalar, clamp_pm.
  rewrite !clamp1_clamp by assumption. reflexivity.
Qed.

Lemma maxFishForce_pos : 0 < maxFishForce.
Proof. unfold maxFishForce. lra. Qed.

Lemma maxFishSpeed_pos : 0 < maxFishSpeed.
Proof. unfold maxFishSpeed. lra. Qed.

(** The tail shared by the three forces: normalize, scale to the maximal
    speed, subtract the velocity, clamp to the maximal force. *)
Lemma steer_tail (desired : Vector3.t) (a : Fish) :
  (d <- normalize desired ;;
   Some (clampScalar (sub (multiplyScalar d maxFishSpeed) (velocity a))
                     (- maxFishForce) maxFishForce))
  = Some (steer_towards desired a).
Proof.
  rewrite normalize_unit_vector. simpl. unfold steer_towards.
  rewrite clampScalar_clamp_pm by (pose proof maxFishForce_pos; lra).
  reflexivity.
Qed.

Lemma steer_towards_within (desired : Vector3.t) (a : Fish) :
  within (- maxFishForce) maxFishForce (steer_towards desired a).
Proof.
  unfold steer_towards.
  rewrite <- clampScalar_clamp_pm by (pose proof maxFishForce_pos; lra).
  apply clampScalar_within. pose proof maxFishForce_pos. lra.
Qed.

(** ** The scans *)

Lemma near_true (a o : Fish) (r : R) : near a o r = true <-> in_range r a o.
Proof.
  unfold near, in_range. rewrite andb_true_iff, gtb_true, ltb_true.
  split; intros [H1 H2]; split; lra.
Qed.

Lemma near_self (a o : Fish) (r : R) : position o = position a -> near a o r = false.
Proof.
  intros H. unfold near. rewrite H, distanceTo_self.
  replace (JS.gtb 0 0) with false; [reflexivity |].
  symmetry. apply gtb_false. lra.
Qed.

Lemma add_assoc (u v w : Vector3.t) : add (add u v) w = add u (add v w).
Proof. apply vec_eq; simpl; ring. Qed.

Lemma add_zero_l (v : Vector3.t) : add zero v = v.
Proof. apply vec_eq; simpl; ring. Qed.

(** A counting and summing [forEach], as in [cohesion] and [align]. *)
Lemma scan_included (g : Fish -> Vector3.t) (r : R) (fish : Fish) :
  forall (l : list Fish) (c : nat) (s : Vector3.t),
    fold_left
      (fun (acc : nat * Vector3.t) (other : Fish) =>
         let (count, sum) := acc in
         if near fish other r then (S count, add sum (g other)) else (count, sum))
      l (c, s)
    = ((c + List.length (included r l fish))%nat,
       add s (vsum (map g (included r l fish)))).
Proof.
  induction l as [| o l IH]; intros c s; simpl.
  - rewrite Nat.add_0_r, add_zero_r. reflexivity.
  - destruct (near fish o r); simpl.
    + rewrite IH. f_equal; [lia | apply add_assoc].
    + apply IH.
Qed.

Lemma cohesion_radius_eq : cohesionRadius + fishSize * 2 = cohesionRadius + 2 * fishSize.
Proof. ring. Qed.

Lemma cohesion_scan_included (fishies : list Fish) (fish : Fish) :
  cohesion_scan fishies fish
  = (List.length (included (cohesionRadius + 2 * fishSize) fishies fish),
     vsum (map position (included (cohesionRadius + 2 * fishSize) fishies fish))).
Proof.
  unfold cohesion_scan. rewrite cohesion_radius_eq, scan_included.
  rewrite add_zero_l. reflexivity.
Qed.

Lemma align_scan_included (fishies : list Fish) (fish : Fish) :
  align_scan fishies fish
  = (List.length (included alignmentRadius fishies fish),
     vsum (map velocity (included alignmentRadius fishies fish))).
Proof.
  unfold align_scan. rewrite scan_included, add_zero_l. reflexivity.
Qed.

Lemma avoid_visit_near (fish o : Fish) (c : nat) (s : Vector3.t) :
  near fish o avoidanceRadius = true ->
  avoid_visit fish (c, s) o = Some (S c, add s (repulsion fish o)).
Proof.
  intros H. unfold avoid_visit. fold (near fish o avoidanceRadius). rewrite H.
  apply near_true in H. destruct H as [Hpos _].
  rewrite normalize_unit_vector. simpl.
  rewrite divideScalar_Some by lra. simpl.
  rewrite multiplyScalar_vdiv. reflexivity.
Qed.

Lemma avoid_visit_far (fish o : Fish) (c : nat) (s : Vector3.t) :
  near fish o avoidanceRadius = false ->
  avoid_visit fish (c, s) o = Some (c, s).
Proof.
  intros H. unfold avoid_visit. fold (near fish o avoidanceRadius). rewrite H.
  reflexivity.
Qed.

Lemma avoid_scan_included (fish : Fish) :
  forall (l : list Fish) (c : nat) (s : Vector3.t),
    avoid_scan fish (c, s) l
    = Some ((c + List.length (included avoidanceRadius l fish))%nat,
            add s (vsum (map (repulsion fish) (included avoidanceRadius l fish)))).
Proof.
  induction l as [| o l IH]; intros c s.
  - simpl. rewrite Nat.add_0_r, add_zero_r. reflexivity.
  - cbn [avoid_scan]. unfold included in *. cbn [filter].
    destruct (near fish o avoidanceRadius) eqn:E.
    + rewrite avoid_visit_near by assumption. cbn [bind].
      rewrite IH. cbn [List.length map vsum fold_right].
      do 2 f_equal; [lia | apply add_assoc].
    + rewrite avoid_visit_far by assumption. cbn [bind]. apply IH.
Qed.

(** ** The three forces in closed form *)

Lemma INR_S_neq_0 (n : nat) : INR (S n) <> 0.
Proof. apply not_0_INR. discriminate. Qed.

Lemma mean_map {A : Type} (g : A -> Vector3.t) (l : list A) :
  mean (map g l) = vdiv (vsum (map g l)) (INR (List.length l)).
Proof. unfold mean. rewrite length_map. reflexivity. Qed.

Lemma cohesion_closed (fishies : list Fish) (fish : Fish) :
  cohesion fishies fish = Some (cohesion_spec fishies fish).
Proof.
  unfold cohesion, cohesion_spec, cohesion_target.
  rewrite cohesion_scan_included.
  destruct (included (cohesionRadius + 2 * fishSize) fishies fish) as [| o inc].
  - reflexivity.
  - rewrite mean_map. cbn [List.length Nat.ltb Nat.leb].
    rewrite divideScalar_Some by apply INR_S_neq_0. cbn [bind].
    rewrite multiplyScalar_vdiv. apply steer_tail.
Qed.

Lemma align_closed (fishies : list Fish) (fish : Fish) :
  align fishies fish = Some (align_spec fishies fish).
Proof.
  unfold align, align_spec.
  rewrite align_scan_included.
  destruct (included alignmentRadius fishies fish) as [| o inc].
  - reflexivity.
  - rewrite mean_map. cbn [List.length Nat.ltb Nat.leb].
    rewrite divideScalar_Some by apply INR_S_neq_0. cbn [bind].
    rewrite multiplyScalar_vdiv. apply steer_tail.
Qed.

Lemma pow2_magnitude (v : Vector3.t) :
  sqrt (JS.pow2 (x v) + JS.pow2 (y v) + JS.pow2 (z v)) = magnitude v.
Proof. unfold JS.pow2, magnitude. rewrite !Rsqr_pow2. reflexivity. Qed.

Lemma magnitude_zero : magnitude zero = 0.
Proof. rewrite <- length_magnitude. apply length_zero_iff. reflexivity. Qed.

Lemma avoid_closed (fishies : list Fish) (fish : Fish) :
  avoid fishies fish = Some (avoid_spec fishies fish).
Proof.
  unfold avoid, avoid_spec, avoid_average.
  rewrite avoid_scan_included. cbn [bind]. rewrite add_zero_l.
  destruct (included avoidanceRadius fishies fish) as [| o inc].
  - cbn [List.length Nat.add Nat.ltb Nat.leb map vsum fold_right bind].
    rewrite pow2_magnitude, magnitude_zero.
    replace (JS.gtb 0 0) with false by (symmetry; apply gtb_false; lra).
    destruct (Rlt_dec 0 0) as [H | _]; [lra | reflexivity].
  - rewrite mean_map. cbn [List.length Nat.add Nat.ltb Nat.leb].
    rewrite divideScalar_Some by apply INR_S_neq_0. cbn [bind].
    rewrite multiplyScalar_vdiv, pow2_magnitude.
    set (avg := vdiv _ _).
    unfold JS.gtb.
    destruct (Rgt_dec (magnitude avg) 0) as [H | H];
      destruct (Rlt_dec 0 (magnitude avg)) as [H' | H']; try lra.
    + apply (steer_tail avg fish).
    + reflexivity.
Qed.

(** Each force is the zero vector or has every component within the
    maximal force. *)
Lemma cohesion_spec_bounded (fishies : list Fish) (fish : Fish) :
  within (- maxFishForce) maxFishForce (cohesion_spec fishies fish).
Proof.
  unfold cohesion_spec.
  destruct (included _ fishies fish).
  - apply within_zero. pose proof maxFishForce_pos. lra.
  - apply steer_towards_within.
Qed.

Lemma align_spec_bounded (fishies : list Fish) (fish : Fish) :
  within (- maxFishForce) maxFishForce (align_spec fishies fish).
Proof.
  unfold align_spec.
  destruct (included _ fishies fish).
  - apply within_zero. pose proof maxFishForce_pos. lra.
  - apply steer_towards_within.
Qed.

Lemma magnitude_zero_iff (v : Vector3.t) : magnitude v = 0 <-> v = zero.
Proof. rewrite <- length_magnitude. apply length_zero_iff. Qed.

Lemma magnitude_nonneg (v : Vector3.t) : 0 <= magnitude v.
Proof. apply sqrt_pos. Qed.

Lemma avoid_spec_cases (fishies : list Fish) (fish : Fish) :
  (0 < magnitude (avoid_average fishies fish)
   /\ avoid_spec fishies fish = steer_towards (avoid_average fishies fish) fish)
  \/ (avoid_average fishies fish = zero /\ avoid_spec fishies fish = zero).
Proof.
  unfold avoid_spec. cbv zeta.
  destruct (Rlt_dec 0 (magnitude (avoid_average fishies fish))) as [H | H].
  - left. split; [assumption | reflexivity].
  - right.
    assert (E : avoid_average fishies fish = zero).
    { apply magnitude_zero_iff.
      pose proof (magnitude_nonneg (avoid_average fishies fish)). lra. }
    split; assumption.
Qed.

Lemma avoid_spec_bounded (fishies : list Fish) (fish : Fish) :
  within (- maxFishForce) maxFishForce (avoid_spec fishies fish).
Proof.
  destruct (avoid_spec_cases fishies fish) as [[_ E] | [_ E]]; rewrite E.
  - apply steer_towards_within.
  - apply within_zero. pose proof maxFishForce_pos. lra.
Qed.

(** ** The frame: no division of the forces fails *)

Lemma accelerate_closed (fishies : list Fish) (fish : Fish) :
  accelerate fishies fish = Some (net_acceleration fishies fish).
Proof.
  unfold accelerate.
  rewrite cohesion_closed, avoid_closed, align_closed. reflexivity.
Qed.

Lemma update_stepped (fishies : list Fish) (fish : Fish) :
  update fishies fish = Some (stepped fishies fish).
Proof. unfold update. rewrite accelerate_closed. reflexivity. Qed.

Lemma forEach_update_stepped (todo : list Fish) :
  forall done, forEach_update done todo = Some (forEach_stepped done todo).
Proof.
  induction todo as [| fish rest IH]; intros done; simpl.
  - reflexivity.
  - rewrite update_stepped. simpl. apply IH.
Qed.

Lemma render_advance (fishies : list Fish) :
  render fishies = Some (advance fishies).
Proof. apply forEach_update_stepped. Qed.

Lemma mapM_total {A B : Type} (f : A -> option B) (g : A -> B) (l : list A) :
  (forall a, f a = Some (g a)) -> mapM f l = Some (map g l).
Proof.
  intros H. induction l as [| a l IH]; simpl.
  - reflexivity.
  - rewrite H, IH. reflexivity.
Qed.

Lemma render_snapshot_map (fishies : list Fish) :
  render_snapshot fishies = Some (map (stepped fishies) fishies).
Proof. apply mapM_total. intros a. apply update_stepped. Qed.

(** The visited fish are not touched again. *)
Lemma forEach_stepped_app (todo : list Fish) :
  forall done, exists out,
    forEach_stepped done todo = done ++ out
    /\ List.length out = List.length todo.
Proof.
  induction todo as [| fish rest IH]; intros done; simpl.
  - exists []. rewrite app_nil_r. split; reflexivity.
  - destruct (IH (done ++ [stepped (done ++ fish :: rest) fish])) as (out & E & L).
    exists (stepped (done ++ fish :: rest) fish :: out).
    rewrite E, <- app_assoc. simpl. split; [reflexivity | congruence].
Qed.

Lemma advance_length (fishies : list Fish) :
  List.length (advance fishies) = List.length fishies.
Proof.
  destruct (forEach_stepped_app fishies []) as (out & E & L).
  unfold advance. rewrite E. simpl. assumption.
Qed.

(** The fish at index [i] is stepped while the array holds the new state
    of the fish before it and the old state of the others. *)
Lemma forEach_stepped_nth (todo : list Fish) :
  forall (done : list Fish) (i : nat) (fish : Fish),
    nth_error todo i = Some fish ->
    let out := forEach_stepped done todo in
    nth_error out (List.length done + i)
    = Some (stepped (firstn (List.length done + i) out ++ skipn i todo) fish).
Proof.
  induction todo as [| a rest IH]; intros done i fish Hi.
  - destruct i; discriminate.
  - cbn [forEach_stepped]. cbv zeta.
    set (a' := stepped (done ++ a :: rest) a).
    destruct (forEach_stepped_app rest (done ++ [a'])) as (out & E & L).
    destruct i as [| i].
    + injection Hi as ->. rewrite Nat.add_0_r, E, <- app_assoc.
      rewrite nth_error_app2 by lia. rewrite Nat.sub_diag.
      rewrite firstn_app, Nat.sub_diag, firstn_all. simpl.
      rewrite app_nil_r. reflexivity.
    + simpl in Hi. specialize (IH (done ++ [a']) i fish Hi). cbv zeta in IH.
      rewrite length_app in IH. simpl in IH.
      replace (List.length done + S i)%nat with (List.length done + 1 + i)%nat by lia.
      exact IH.
Qed.

Lemma advance_nth (fishies : list Fish) (i : nat) (fish : Fish) :
  nth_error fishies i = Some fish ->
  nth_error (advance fishies) i
  = Some (stepped (firstn i (advance fishies) ++ skipn i fishies) fish).
Proof. intros H. exact (forEach_stepped_nth fishies [] i fish H). Qed.

(** What holds of every stepped fish holds of every fish of the next
    frame. *)
Lemma advance_Forall (P : Fish -> Prop) (fishies : list Fish) :
  (forall st fish, In fish fishies -> P (stepped st fish)) ->
  Forall P (advance fishies).
Proof.
  intros H. apply Forall_forall. intros f' Hin.
  apply In_nth_error in Hin. destruct Hin as [i Hi].
  assert (Hlt : (i < List.length fishies)%nat).
  { rewrite <- advance_length. apply nth_error_Some. congruence. }
  destruct (nth_error fishies i) as [fish |] eqn:E.
  - rewrite (advance_nth fishies i fish E) in Hi. injection Hi as <-.
    apply H. eapply nth_error_In. eassumption.
  - apply nth_error_None in E. lia.
Qed.

(** ** A fish without neighbours *)

Lemma included_In (r : R) (flock : list Fish) (a o : Fish) :
  In o (included r flock a) <-> In o flock /\ in_range r a o.
Proof. unfold included. rewrite filter_In, near_true. reflexivity. Qed.

Lemma alone_included (r : R) (flock : list Fish) (a : Fish) :
  alone r flock a -> included r flock a = [].
Proof.
  intros H. destruct (included r flock a) as [| o l] eqn:E; [reflexivity |].
  exfalso. assert (Hin : In o (included r flock a)) by (rewrite E; left; reflexivity).
  apply included_In in Hin. destruct Hin as [Hin Hr]. exact (H o Hin Hr).
Qed.

Lemma alone_single (r : R) (a : Fish) : alone r [a] a.
Proof.
  intros o [<- | []] [H _]. rewrite distanceTo_self in H. lra.
Qed.

Lemma cohesion_spec_alone (flock : list Fish) (a : Fish) :
  alone (cohesionRadius + 2 * fishSize) flock a -> cohesion_spec flock a = zero.
Proof. intros H. unfold cohesion_spec. rewrite alone_included by assumption. reflexivity. Qed.

Lemma align_spec_alone (flock : list Fish) (a : Fish) :
  alone alignmentRadius flock a -> align_spec flock a = zero.
Proof. intros H. unfold align_spec. rewrite alone_included by assumption. reflexivity. Qed.

Lemma avoid_spec_alone (flock : list Fish) (a : Fish) :
  alone avoidanceRadius flock a -> avoid_spec flock a = zero.
Proof.
  intros H. unfold avoid_spec, avoid_average.
  rewrite alone_included by assumption. cbv zeta.
  rewrite magnitude_zero. destruct (Rlt_dec 0 0); [lra | reflexivity].
Qed.

Lemma net_acceleration_alone (flock : list Fish) (a : Fish) :
  alone (cohesionRadius + 2 * fishSize) flock a ->
  alone avoidanceRadius flock a ->
  alone alignmentRadius flock a ->
  net_acceleration flock a = acceleration a.
Proof.
  intros Hc Hv Hl. unfold net_acceleration.
  rewrite cohesion_spec_alone, avoid_spec_alone, align_spec_alone by assumption.
  rewrite !multiplyScalar_zero, !add_zero_r. reflexivity.
Qed.

Lemma stepped_alone (flock : list Fish) (a : Fish) :
  alone (cohesionRadius + 2 * fishSize) flock a ->
  alone avoidanceRadius flock a ->
  alone alignmentRadius flock a ->
  rested a ->
  stepped flock a
  = let vel := clampScalar (velocity a) (- maxFishSpeed) maxFishSpeed in
    mkFish (wrap (add (position a) vel)) vel zero (heading vel).
Proof.
  intros Hc Hv Hl Hr. unfold stepped, integrate. cbv zeta. simpl.
  rewrite net_acceleration_alone by assumption.
  rewrite Hr, add_zero_r, multiplyScalar_zero. reflexivity.
Qed.

Lemma stepped_single (a : Fish) :
  rested a ->
  within (- maxFishSpeed) maxFishSpeed (velocity a) ->
  stepped [a] a
  = mkFish (wrap (add (position a) (velocity a))) (velocity a) zero
           (heading (velocity a)).
Proof.
  intros Hr Hw.
  rewrite stepped_alone by (try apply alone_single; assumption).
  cbv zeta. rewrite clampScalar_id by assumption. reflexivity.
Qed.

Lemma render_single (a : Fish) :
  rested a ->
  within (- maxFishSpeed) maxFishSpeed (velocity a) ->
  render [a]
  = Some [mkFish (wrap (add (position a) (velocity a))) (velocity a) zero
                 (heading (velocity a))].
Proof.
  intros Hr Hw. rewrite render_advance. unfold advance. simpl.
  rewrite stepped_single by assumption. reflexivity.
Qed.

(** The acceleration is zero again after every frame. *)
Lemma stepped_rested (flock : list Fish) (a : Fish) : rested (stepped flock a).
Proof. unfold rested, stepped, integrate. simpl. apply multiplyScalar_0. Qed.

Lemma advance_rested (fishies : list Fish) : Forall rested (advance fishies).
Proof. apply advance_Forall. intros st fish _. apply stepped_rested. Qed.

(** ** The boundary test *)

Lemma wrap_coord (bound c : R) :
  (if JS.gtb c bound || JS.ltb c (- bound) then c * -1 else c)
  = reflect_coord bound c.
Proof.
  unfold reflect_coord, JS.gtb, JS.ltb.
  destruct (Rgt_dec c bound) as [H1 | H1];
    destruct (Rlt_dec c (- bound)) as [H2 | H2];
    destruct (Rlt_dec bound (Rabs c)) as [H3 | H3];
    simpl; try ring;
    exfalso; revert H3; unfold Rabs; destruct (Rcase_abs c); lra.
Qed.

Lemma wrap_reflect (p : Vector3.t) :
  wrap p = mk (reflect_coord boundaryWidth (x p))
              (reflect_coord boundaryHeight (y p)) (z p).
Proof. unfold wrap. cbv zeta. rewrite !wrap_coord. reflexivity. Qed.

Lemma reflect_coord_abs (bound c : R) : Rabs (reflect_coord bound c) = Rabs c.
Proof.
  unfold reflect_coord. destruct (Rlt_dec bound (Rabs c)).
  - apply Rabs_Ropp.
  - reflexivity.
Qed.

(** ** Several frames *)

Lemma frames_advance_n (n : nat) :
  forall fishies, frames n fishies = Some (advance_n n fishies).
Proof.
  induction n as [| n IH]; intros fishies; simpl.
  - reflexivity.
  - rewrite render_advance. simpl. apply IH.
Qed.

Lemma advance_n_last (n : nat) :
  forall fishies, advance_n (S n) fishies = advance (advance_n n fishies).
Proof.
  induction n as [| n IH]; intros fishies.
  - reflexivity.
  - change (advance_n (S (S n)) fishies) with (advance_n (S n) (advance fishies)).
    rewrite IH. reflexivity.
Qed.

(** The frame [n + 1] is [render] applied to the flock after [n] frames. *)
Lemma frames_last (n : nat) (fishies : list Fish) :
  exists before,
    frames n fishies = Some before
    /\ frames (S n) fishies = render before.
Proof.
  exists (advance_n n fishies). split.
  - apply frames_advance_n.
  - rewrite frames_advance_n, advance_n_last, render_advance. reflexivity.
Qed.

Lemma stepped_position (flock : list Fish) (a : Fish) :
  position (stepped flock a) = wrap (add (position a) (velocity (stepped flock a))).
Proof. reflexivity. Qed.

Lemma stepped_velocity_within (flock : list Fish) (a : Fish) :
  within (- maxFishSpeed) maxFishSpeed (velocity (stepped flock a)).
Proof.
  unfold stepped, integrate. simpl.
  apply clampScalar_within. pose proof maxFishSpeed_pos. lra.
Qed.

(** ** The claims on the boundary and on the velocity *)

(** C6.  The boundary step of the tick is [wrap] applied to the integrated
    position, and [wrap] is coordinate negation: [x] is replaced by [-x]
    when [|x| > boundaryWidth], [y] by [-y] when [|y| > boundaryHeight],
    and a coordinate within its bound is unchanged (no modulo, [z] is not
    touched).  A position with [x = boundaryWidth + 1] is sent to
    [x = -(boundaryWidth + 1)]. *)
Theorem wrap_is_negation :
  (forall fishies fish, exists acc,
      accelerate fishies fish = Some acc
      /\ update fishies fish
         = Some (mkFish (wrap (position (integrate fish acc)))
                        (velocity (integrate fish acc))
                        (acceleration (integrate fish acc))
                        (rotation_z (integrate fish acc))))
  /\ (forall p,
         x (wrap p) = (if Rlt_dec boundaryWidth (Rabs (x p)) then - x p else x p)
         /\ y (wrap p) = (if Rlt_dec boundaryHeight (Rabs (y p)) then - y p else y p)
         /\ z (wrap p) = z p)
  /\ (forall b c, x (wrap (mk (boundaryWidth + 1) b c)) = - (boundaryWidth + 1)).
Proof.
  split; [| split].
  - intros fishies fish. exists (net_acceleration fishies fish). split.
    + apply accelerate_closed.
    + apply update_stepped.
  - intros p. rewrite wrap_reflect. simpl. unfold reflect_coord. auto.
  - intros b c. rewrite wrap_reflect. simpl. unfold reflect_coord, boundaryWidth.
    destruct (Rlt_dec 640 (Rabs (640 + 1))) as [_ | H]; [reflexivity |].
    exfalso. apply H. solve_abs.
Qed.

(** C1, as stated, fails: a lone fish at [x = 639] moving at [x] speed [4]
    is integrated to [643], negated to [-643], and ends the tick outside
    the rectangle. *)
Lemma wrap_leaves_fish_outside :
  exists fish',
    render [mkFish (mk 639 0 0) (mk 4 0 0) zero None] = Some [fish']
    /\ position fish' = mk (-643) 0 0
    /\ ~ Rabs (x (position fish')) <= boundaryWidth.
Proof.
  eexists. split; [| split].
  - apply render_single.
    + reflexivity.
    + unfold within, maxFishSpeed. simpl. lra.
  - cbn [position]. rewrite wrap_reflect.
    unfold reflect_coord, boundaryWidth, boundaryHeight. simpl.
    destruct (Rlt_dec 640 (Rabs (639 + 4))) as [_ | H]; [| exfalso; apply H; solve_abs].
    destruct (Rlt_dec 320 (Rabs (0 + 0))) as [H | _]; [exfalso; revert H; solve_abs |].
    apply vec_eq; simpl; ring.
  - cbn [position]. rewrite wrap_reflect. cbn [x]. rewrite reflect_coord_abs.
    unfold boundaryWidth. simpl. solve_abs.
Qed.

(** C1, amended.  In every tick the wrap keeps the absolute value of each
    coordinate of the integrated position (it only flips its sign), so an
    agent whose position was inside the rectangle before the tick ends the
    tick with [|position.x| <= boundaryWidth + maxFishSpeed] and
    [|position.y| <= boundaryHeight + maxFishSpeed]. *)
Theorem position_after_wrap (n : nat) (fishies : list Fish) :
  exists before after,
    frames n fishies = Some before
    /\ frames (S n) fishies = Some after
    /\ forall i fish fish',
        nth_error before i = Some fish ->
        nth_error after i = Some fish' ->
        Rabs (x (position fish')) = Rabs (x (position fish) + x (velocity fish'))
        /\ Rabs (y (position fish')) = Rabs (y (position fish) + y (velocity fish'))
        /\ (inside (position fish) ->
            Rabs (x (position fish')) <= boundaryWidth + maxFishSpeed
            /\ Rabs (y (position fish')) <= boundaryHeight + maxFishSpeed).
Proof.
  destruct (frames_last n fishies) as (before & Hn & HS).
  exists before, (advance before). split; [assumption | split].
  - rewrite HS. apply render_advance.
  - intros i fish fish' Hi Hi'.
    rewrite (advance_nth before i fish Hi) in Hi'. injection Hi' as <-.
    set (st := firstn i (advance before) ++ skipn i before).
    rewrite stepped_position, wrap_reflect.
    pose proof (stepped_velocity_within st fish) as Hv.
    set (v := velocity (stepped st fish)) in *.
    destruct Hv as ((Hx1 & Hx2) & (Hy1 & Hy2) & _).
    cbn [position x y add]. rewrite !reflect_coord_abs.
    split; [reflexivity | split; [reflexivity |]].
    intros [Hx Hy]. revert Hx Hy Hx1 Hx2 Hy1 Hy2.
    unfold boundaryWidth, boundaryHeight, maxFishSpeed. split; solve_abs.
Qed.

Lemma position_after_wrap_witness :
  exists fish',
    frames 1 [mkFish (mk 639 0 0) (mk 4 0 0) zero None] = Some [fish']
    /\ Rabs (x (position fish')) <= boundaryWidth + maxFishSpeed.
Proof.
  destruct (position_after_wrap 0 [mkFish (mk 639 0 0) (mk 4 0 0) zero None])
    as (before & after & H0 & H1 & H).
  simpl in H0. injection H0 as <-.
  assert (E : frames 1 [mkFish (mk 639 0 0) (mk 4 0 0) zero None]
              = Some [mkFish (wrap (add (mk 639 0 0) (mk 4 0 0))) (mk 4 0 0) zero
                             (heading (mk 4 0 0))]).
  { cbn [frames]. rewrite render_single.
    - reflexivity.
    - reflexivity.
    - unfold within, maxFishSpeed. simpl. lra. }
  rewrite E in H1. injection H1 as <-.
  eexists. split; [exact E |].
  refine (proj1 (proj2 (proj2 (H 0%nat _ _ eq_refl eq_refl)) _)).
  unfold inside, boundaryWidth, boundaryHeight. simpl. split; solve_abs.
Defined.

(** C3.  After every tick every agent has [|velocity.x| <= maxFishSpeed]
    and [|velocity.y| <= maxFishSpeed].  The clamp is componentwise: a fish
    can keep the velocity [(maxFishSpeed, maxFishSpeed)], of magnitude
    [maxFishSpeed * sqrt 2]. *)
Theorem velocity_clamped :
  (forall n fishies, exists after,
      frames (S n) fishies = Some after
      /\ Forall (fun fish => Rabs (x (velocity fish)) <= maxFishSpeed
                             /\ Rabs (y (velocity fish)) <= maxFishSpeed) after)
  /\ (exists fish',
         render [mkFish zero (mk maxFishSpeed maxFishSpeed 0) zero None] = Some [fish']
         /\ velocity fish' = mk maxFishSpeed maxFishSpeed 0
         /\ magnitude (velocity fish') = maxFishSpeed * sqrt 2).
Proof.
  split.
  - intros n fishies.
    destruct (frames_last n fishies) as (before & Hn & HS).
    exists (advance before). split.
    + rewrite HS. apply render_advance.
    + apply advance_Forall. intros st fish _.
      destruct (stepped_velocity_within st fish) as (Hx & Hy & _).
      split; solve_abs.
  - eexists. split; [| split].
    + apply render_single.
      * reflexivity.
      * unfold within, maxFishSpeed. simpl. lra.
    + reflexivity.
    + unfold magnitude. simpl.
      replace (maxFishSpeed² + maxFishSpeed² + 0²) with (maxFishSpeed² * 2)
        by (unfold Rsqr; ring).
      rewrite sqrt_mult by (try apply Rle_0_sqr; lra).
      rewrite sqrt_Rsqr by (pose proof maxFishSpeed_pos; lra).
      reflexivity.
Qed.

(** ** Vectors along the [x] axis, and the clamp *)

Lemma magnitude_along_x (v : Vector3.t) :
  y v = 0 -> z v = 0 -> magnitude v = Rabs (x v).
Proof.
  intros Hy Hz. unfold magnitude. rewrite Hy, Hz.
  replace ((x v)² + 0² + 0²) with ((x v)²) by (unfold Rsqr; ring).
  apply sqrt_Rsqr_abs.
Qed.

Lemma unit_vector_x_neg (d : Vector3.t) :
  x d < 0 -> y d = 0 -> z d = 0 -> unit_vector d = mk (-1) 0 0.
Proof.
  intros Hx Hy Hz. unfold unit_vector.
  rewrite magnitude_along_x by assumption.
  rewrite Rabs_left by assumption.
  destruct (Req_dec_T (- x d) 0) as [E | E]; [lra |].
  apply vec_eq; simpl; rewrite ?Hy, ?Hz; field; lra.
Qed.

Lemma clamp1_low (m a : R) : a < - m -> clamp1 m a = - m.
Proof. intros H. unfold clamp1. destruct (Rlt_dec a (- m)); [reflexivity | lra]. Qed.

Lemma clamp1_mid (m a : R) : - m <= a <= m -> clamp1 m a = a.
Proof.
  intros H. unfold clamp1.
  destruct (Rlt_dec a (- m)); [lra |]. destruct (Rlt_dec m a); [lra | reflexivity].
Qed.

(** ** The claims on the forces *)

Lemma distanceTo_along_y (v w : Vector3.t) :
  x v = x w -> z v = z w -> distanceTo v w = Rabs (y v - y w).
Proof.
  intros Hx Hz. unfold distanceTo, distanceToSquared. cbv zeta.
  rewrite Hx, Hz.
  replace ((x w - x w) * (x w - x w) + (y v - y w) * (y v - y w)
           + (z w - z w) * (z w - z w)) with (Rsqr (y v - y w))
    by (unfold Rsqr; ring).
  apply sqrt_Rsqr_abs.
Qed.

Lemma near_in_range (a o : Fish) (r : R) : in_range r a o -> near a o r = true.
Proof. apply near_true. Qed.

Lemma near_out_of_range (a o : Fish) (r : R) : ~ in_range r a o -> near a o r = false.
Proof.
  intros H. destruct (near a o r) eqn:E; [| reflexivity].
  apply near_true in E. contradiction.
Qed.

(** C4.  [cohesion] returns the zero vector when no agent [o] of the flock
    has [0 < distance(a, o) < cohesionRadius + 2 * fishSize], and otherwise
    the componentwise clamp to [+-maxFishForce] of
    [normalize(mean - a.position) * maxFishSpeed - a.velocity], where
    [mean] is the arithmetic mean of the positions of those agents.  For
    agents at [(0,0)], [(10,0)], [(0,10)] the scan of the agent at the
    origin counts two agents, and their mean position, the target, is
    [(5,5)]. *)
Theorem cohesion_steers_to_mean :
  (forall fishies fish,
      cohesion fishies fish
      = Some match included (cohesionRadius + 2 * fishSize) fishies fish with
             | [] => zero
             | inc =>
                 clamp_pm maxFishForce
                   (sub (multiplyScalar
                           (unit_vector (sub (mean (map position inc)) (position fish)))
                           maxFishSpeed)
                        (velocity fish))
             end)
  /\ (forall fishies fish o,
         In o (included (cohesionRadius + 2 * fishSize) fishies fish)
         <-> In o fishies
             /\ 0 < distanceTo (position fish) (position o)
                < cohesionRadius + 2 * fishSize)
  /\ (forall v0 v1 v2 a0 a1 a2 r0 r1 r2,
         let f0 := mkFish (mk 0 0 0) v0 a0 r0 in
         let f1 := mkFish (mk 10 0 0) v1 a1 r1 in
         let f2 := mkFish (mk 0 10 0) v2 a2 r2 in
         exists sum,
           cohesion_scan [f0; f1; f2] f0 = (2%nat, sum)
           /\ divideScalar sum (INR 2) = Some (mk 5 5 0)
           /\ cohesion_target [f0; f1; f2] f0 = mk 5 5 0).
Proof.
  split; [| split].
  - intros fishies fish. rewrite cohesion_closed. unfold cohesion_spec, cohesion_target.
    destruct (included (cohesionRadius + 2 * fishSize) fishies fish); reflexivity.
  - intros fishies fish o. apply included_In.
  - intros v0 v1 v2 a0 a1 a2 r0 r1 r2 f0 f1 f2.
    assert (E : included (cohesionRadius + 2 * fishSize) [f0; f1; f2] f0 = [f1; f2]).
    { unfold included. cbn [filter].
      rewrite (near_self f0 f0) by reflexivity.
      rewrite (near_in_range f0 f1), (near_in_range f0 f2); [reflexivity | |].
      - unfold in_range. rewrite distanceTo_along_y by reflexivity.
        unfold cohesionRadius, fishSize. simpl. solve_abs.
      - unfold in_range. rewrite distanceTo_along_x by reflexivity.
        unfold cohesionRadius, fishSize. simpl. solve_abs. }
    exists (vsum (map position [f1; f2])). split; [| split].
    + rewrite cohesion_scan_included, E. reflexivity.
    + rewrite divideScalar_Some by (simpl; lra). f_equal.
      apply vec_eq; simpl; field.
    + unfold cohesion_target. rewrite E. unfold mean, vdiv.
      apply vec_eq; simpl; field.
Qed.

(** C5.  [avoid] accumulates [normalize(a.position - o.position) /
    distance(a, o)] over the agents [o] with
    [0 < distance(a, o) < avoidanceRadius] and divides the sum by their
    count; when the averaged vector has strictly positive magnitude the
    result is the clamp to [+-maxFishForce] of
    [normalize(avg) * maxFishSpeed - a.velocity]; otherwise the averaged
    vector, which is then the zero vector, is returned as it is. *)
Theorem avoid_steers_away (fishies : list Fish) (fish : Fish) :
  let inc := included avoidanceRadius fishies fish in
  let diff := fun o =>
    vdiv (unit_vector (sub (position fish) (position o)))
         (distanceTo (position fish) (position o)) in
  let avg :=
    match inc with
    | [] => zero
    | _ => vdiv (vsum (map diff inc)) (INR (List.length inc))
    end in
  (forall o, In o inc
             <-> In o fishies
                 /\ 0 < distanceTo (position fish) (position o) < avoidanceRadius)
  /\ (0 < magnitude avg ->
      avoid fishies fish
      = Some (clamp_pm maxFishForce
                (sub (multiplyScalar (unit_vector avg) maxFishSpeed) (velocity fish))))
  /\ (magnitude avg = 0 -> avg = zero /\ avoid fishies fish = Some avg)
  /\ (0 < magnitude avg \/ magnitude avg = 0).
Proof.
  intros inc diff avg.
  assert (Eavg : avoid_average fishies fish = avg).
  { unfold avoid_average, avg, inc.
    destruct (included avoidanceRadius fishies fish) as [| o l]; [reflexivity |].
    rewrite mean_map. reflexivity. }
  split; [| split; [| split]].
  - intros o. apply included_In.
  - intros Hpos. rewrite avoid_closed. unfold avoid_spec. cbv zeta. rewrite Eavg.
    destruct (Rlt_dec 0 (magnitude avg)); [reflexivity | lra].
  - intros Hzero. split.
    + apply magnitude_zero_iff. assumption.
    + rewrite avoid_closed. unfold avoid_spec. cbv zeta. rewrite Eavg.
      destruct (Rlt_dec 0 (magnitude avg)); [lra | reflexivity].
  - pose proof (magnitude_nonneg avg). lra.
Qed.

Lemma avoid_steers_away_witness :
  avoid [mkFish zero zero zero None] (mkFish zero zero zero None) = Some zero
  /\ avoid [mkFish (mk 0 0 0) zero zero None; mkFish (mk 10 0 0) zero zero None]
           (mkFish (mk 0 0 0) zero zero None)
     = Some (mk (- maxFishForce) 0 0).
Proof.
  split.
  - pose proof (avoid_steers_away [mkFish zero zero zero None]
                  (mkFish zero zero zero None)) as H.
    cbv zeta in H. destruct H as (_ & _ & H & _).
    rewrite (alone_included _ _ _ (alone_single _ _)) in H.
    exact (proj2 (H magnitude_zero)).
  - set (f := mkFish (mk 0 0 0) zero zero None).
    set (o := mkFish (mk 10 0 0) zero zero None).
    pose proof (avoid_steers_away [f; o] f) as H.
    cbv zeta in H. destruct H as (_ & H & _ & _).
    assert (Hd : distanceTo (position f) (position o) = 10).
    { rewrite distanceTo_along_x by reflexivity. simpl. solve_abs. }
    assert (Hinc : included avoidanceRadius [f; o] f = [o]).
    { unfold included. cbn [filter].
      rewrite (near_self f f) by reflexivity.
      rewrite (near_in_range f o); [reflexivity |].
      unfold in_range. rewrite Hd. unfold avoidanceRadius. lra. }
    rewrite Hinc in H. cbn [map vsum fold_right List.length] in H.
    rewrite Hd in H.
    rewrite (unit_vector_x_neg (sub (position f) (position o))) in H
      by (simpl; lra).
    assert (Havg : vdiv (add (vdiv (mk (-1) 0 0) 10) zero) (INR 1)
                   = mk (- (1 / 10)) 0 0).
    { apply vec_eq; simpl; field. }
    rewrite Havg in H.
    rewrite (unit_vector_x_neg (mk (- (1 / 10)) 0 0)) in H by (simpl; lra).
    rewrite H.
    + f_equal. unfold clamp_pm. cbn [x y z sub multiplyScalar velocity f zero].
      rewrite clamp1_low by (unfold maxFishSpeed, maxFishForce; lra).
      rewrite !clamp1_mid by (unfold maxFishSpeed, maxFishForce; lra).
      apply vec_eq; simpl; ring.
    + rewrite magnitude_along_x by reflexivity. simpl. solve_abs.
Defined.

(** C10.  Each of [cohesion], [avoid] and [align] returns a vector (the
    zero vector included) whose every component lies in
    [[-maxFishForce, maxFishForce]]; so the acceleration accumulated in a
    tick by a fish that entered it with zero acceleration has every
    component at most
    [(cohesionStrength + avoidanceStrength + alignmentStrength) * maxFishForce]
    in absolute value, and so has the change of the velocity before the
    clamp.  Every frame leaves every fish with zero acceleration. *)
Theorem forces_bounded (fishies : list Fish) (fish : Fish) :
  (exists c a l,
      cohesion fishies fish = Some c
      /\ avoid fishies fish = Some a
      /\ align fishies fish = Some l
      /\ within (- maxFishForce) maxFishForce c
      /\ within (- maxFishForce) maxFishForce a
      /\ within (- maxFishForce) maxFishForce l)
  /\ (rested fish ->
      exists acc,
        accelerate fishies fish = Some acc
        /\ Rabs (x acc) <= (cohesionStrength + avoidanceStrength + alignmentStrength) * maxFishForce
        /\ Rabs (y acc) <= (cohesionStrength + avoidanceStrength + alignmentStrength) * maxFishForce
        /\ Rabs (z acc) <= (cohesionStrength + avoidanceStrength + alignmentStrength) * maxFishForce
        /\ Rabs (x (add (velocity fish) acc) - x (velocity fish))
           <= (cohesionStrength + avoidanceStrength + alignmentStrength) * maxFishForce
        /\ Rabs (y (add (velocity fish) acc) - y (velocity fish))
           <= (cohesionStrength + avoidanceStrength + alignmentStrength) * maxFishForce)
  /\ (exists after, render fishies = Some after /\ Forall rested after).
Proof.
  pose proof (cohesion_spec_bounded fishies fish) as Hc.
  pose proof (avoid_spec_bounded fishies fish) as Ha.
  pose proof (align_spec_bounded fishies fish) as Hl.
  split; [| split];
    [| | exists (advance fishies); split;
         [apply render_advance | apply advance_rested]].
  - exists (cohesion_spec fishies fish), (avoid_spec fishies fish),
      (align_spec fishies fish).
    rewrite cohesion_closed, avoid_closed, align_closed. tauto.
  - intros Hr. exists (net_acceleration fishies fish).
    split; [apply accelerate_closed |].
    unfold net_acceleration. rewrite Hr.
    set (c := cohesion_spec fishies fish) in *.
    set (a := avoid_spec fishies fish) in *.
    set (l := align_spec fishies fish) in *.
    destruct Hc as (Hc1 & Hc2 & Hc3), Ha as (Ha1 & Ha2 & Ha3), Hl as (Hl1 & Hl2 & Hl3).
    revert Hc1 Hc2 Hc3 Ha1 Ha2 Ha3 Hl1 Hl2 Hl3.
    unfold maxFishForce, cohesionStrength, avoidanceStrength, alignmentStrength.
    cbn [x y z add multiplyScalar zero].
    intros. repeat split; solve_abs.
Qed.

Lemma forces_bounded_witness :
  exists acc,
    accelerate [mkFish zero zero zero None] (mkFish zero zero zero None) = Some acc
    /\ Rabs (x acc)
       <= (cohesionStrength + avoidanceStrength + alignmentStrength) * maxFishForce.
Proof.
  destruct (proj1 (proj2 (forces_bounded [mkFish zero zero zero None]
                            (mkFish zero zero zero None))) eq_refl)
    as (acc & E & Hx & _).
  exists acc. split; assumption.
Defined.

(** C8.  A fish with no agent of the flock inside the cohesion, avoidance
    and alignment radii gets the zero vector from [cohesion], [avoid] and
    [align]; entering the tick with zero acceleration, its velocity is only
    clamped, so a velocity already within [+-maxFishSpeed] is unchanged and
    the position advances by it before the boundary test.  In a flock of
    one fish this holds on every tick: the velocity is the same after any
    number of frames. *)
Theorem lone_fish_coasts :
  (forall fishies fish,
      alone (cohesionRadius + 2 * fishSize) fishies fish ->
      alone avoidanceRadius fishies fish ->
      alone alignmentRadius fishies fish ->
      cohesion fishies fish = Some zero
      /\ avoid fishies fish = Some zero
      /\ align fishies fish = Some zero
      /\ (rested fish ->
          exists fish',
            update fishies fish = Some fish'
            /\ velocity fish' = clampScalar (velocity fish) (- maxFishSpeed) maxFishSpeed
            /\ (within (- maxFishSpeed) maxFishSpeed (velocity fish) ->
                velocity fish' = velocity fish
                /\ position fish' = wrap (add (position fish) (velocity fish)))))
  /\ (forall n fish,
         rested fish ->
         within (- maxFishSpeed) maxFishSpeed (velocity fish) ->
         exists fish',
           frames n [fish] = Some [fish']
           /\ velocity fish' = velocity fish
           /\ cohesion [fish'] fish' = Some zero
           /\ avoid [fish'] fish' = Some zero
           /\ align [fish'] fish' = Some zero).
Proof.
  split.
  - intros fishies fish Hc Ha Hl.
    rewrite cohesion_closed, avoid_closed, align_closed.
    rewrite cohesion_spec_alone, avoid_spec_alone, align_spec_alone by assumption.
    repeat split.
    intros Hr. exists (stepped fishies fish). split; [apply update_stepped |].
    rewrite stepped_alone by assumption. cbv zeta. split; [reflexivity |].
    intros Hw. rewrite clampScalar_id by assumption. split; reflexivity.
  - induction n as [| n IH]; intros fish Hr Hw.
    + exists fish. cbn [frames].
      rewrite cohesion_closed, avoid_closed, align_closed.
      rewrite cohesion_spec_alone, avoid_spec_alone, align_spec_alone
        by apply alone_single.
      repeat split.
    + cbn [frames]. rewrite render_single by assumption. cbn [bind].
      apply (IH (mkFish (wrap (add (position fish) (velocity fish))) (velocity fish)
                        zero (heading (velocity fish)))).
      * reflexivity.
      * exact Hw.
Qed.

Lemma lone_fish_coasts_witness :
  exists fish',
    frames 3 [mkFish zero (mk 1 2 0) zero None] = Some [fish']
    /\ velocity fish' = mk 1 2 0.
Proof.
  destruct (proj2 lone_fish_coasts 3%nat (mkFish zero (mk 1 2 0) zero None))
    as (fish' & E & Hv & _).
  - reflexivity.
  - unfold within, maxFishSpeed. simpl. lra.
  - exists fish'. split; assumption.
Defined.

Lemma atan_div_Some (a b : R) : b <> 0 -> JS.atan_div a b = Some (atan (a / b)).
Proof.
  intros H. unfold JS.atan_div. destruct (Req_dec_T b 0); [contradiction | reflexivity].
Qed.

Lemma sign_0 : JS.sign 0 = 0.
Proof.
  unfold JS.sign. destruct (Rgt_dec 0 0); [lra |]. destruct (Rlt_dec 0 0); [lra | reflexivity].
Qed.

(** The heading, by cases on the velocity. *)
Lemma heading_cases (v : Vector3.t) :
  (x v <> 0 -> heading v = Some (atan (y v / x v) - PI / 2 * JS.sign (x v)))
  /\ (x v = 0 -> y v > 0 -> heading v = Some (PI / 2 - PI / 2 * 0))
  /\ (x v = 0 -> y v < 0 -> heading v = Some (- (PI / 2) - PI / 2 * 0))
  /\ (x v = 0 -> y v = 0 -> heading v = None).
Proof.
  unfold heading. repeat split.
  - intros H. rewrite atan_div_Some by assumption. reflexivity.
  - intros Hx Hy. rewrite Hx, sign_0. unfold JS.atan_div.
    destruct (Req_dec_T 0 0); [| contradiction].
    destruct (Rgt_dec (y v) 0); [reflexivity | contradiction].
  - intros Hx Hy. rewrite Hx, sign_0. unfold JS.atan_div.
    destruct (Req_dec_T 0 0); [| contradiction].
    destruct (Rgt_dec (y v) 0); [lra |].
    destruct (Rlt_dec (y v) 0); [reflexivity | contradiction].
  - intros Hx Hy. rewrite Hx, Hy. unfold JS.atan_div.
    destruct (Req_dec_T 0 0); [| contradiction].
    destruct (Rgt_dec 0 0); [lra |]. destruct (Rlt_dec 0 0); [lra | reflexivity].
Qed.

(** C7, as stated, fails: the heading divides [velocity.y] by
    [velocity.x] with no guard, and for a fish at rest the quotient [0 / 0]
    is not a number.  A lone fish with velocity [(0, 0)] keeps that
    velocity, and its heading after the frame is [NaN]. *)
Lemma heading_division_unguarded :
  exists fish',
    render [mkFish zero (mk 0 0 0) zero None] = Some [fish']
    /\ velocity fish' = mk 0 0 0
    /\ JS.div (y (velocity fish')) (x (velocity fish')) = None
    /\ rotation_z fish' = None.
Proof.
  eexists. split; [| split; [| split]].
  - apply render_single.
    + reflexivity.
    + unfold within, maxFishSpeed. simpl. lra.
  - reflexivity.
  - apply div_None.
  - cbn [rotation_z velocity]. apply (heading_cases (mk 0 0 0)); reflexivity.
Qed.

Lemma unit_vector_zero : unit_vector zero = zero.
Proof.
  unfold unit_vector. rewrite magnitude_zero.
  destruct (Req_dec_T 0 0); [reflexivity | contradiction].
Qed.

(** C7, amended.  The force computations of a tick never divide by zero:
    [cohesion], [avoid] and [align] return a vector for every flock and
    fish (the divisions by the count and by the distance sit under
    [count > 0] and [dist > 0]), [normalize] returns a vector for every
    argument, the zero vector included, which [cohesion] can hand to it
    (two neighbours opposite each other), and a frame yields a flock.  The
    heading divides with no guard.  It is
    [atan(velocity.y / velocity.x) - PI / 2 * sign(velocity.x)] when the new
    [velocity.x] is not zero; when [velocity.x] is zero and [velocity.y] is
    not, the infinite quotient gives a heading of absolute value [PI / 2];
    it is not a number exactly when both are zero. *)
Theorem force_divisions_guarded :
  (forall fishies fish,
      exists c a l,
        cohesion fishies fish = Some c
        /\ avoid fishies fish = Some a
        /\ align fishies fish = Some l)
  /\ (forall v, exists u, normalize v = Some u)
  /\ normalize zero = Some zero
  /\ (forall v0 a0 r0 v1 a1 r1 v2 a2 r2,
         let f0 := mkFish (mk 0 0 0) v0 a0 r0 in
         let f1 := mkFish (mk 10 0 0) v1 a1 r1 in
         let f2 := mkFish (mk (-10) 0 0) v2 a2 r2 in
         sub (cohesion_target [f0; f1; f2] f0) (position f0) = zero
         /\ cohesion [f0; f1; f2] f0
            = Some (clamp_pm maxFishForce (sub zero v0)))
  /\ (forall fishies, exists after, render fishies = Some after)
  /\ (forall fishies fish,
         exists fish',
           update fishies fish = Some fish'
           /\ (x (velocity fish') <> 0 ->
               rotation_z fish'
               = Some (atan (y (velocity fish') / x (velocity fish'))
                       - PI / 2 * JS.sign (x (velocity fish'))))
           /\ (x (velocity fish') = 0 -> y (velocity fish') <> 0 ->
               exists h, rotation_z fish' = Some h /\ Rabs h = PI / 2)
           /\ (rotation_z fish' = None
               <-> x (velocity fish') = 0 /\ y (velocity fish') = 0)).
Proof.
  split; [| split; [| split; [| split; [| split]]]].
  - intros fishies fish.
    exists (cohesion_spec fishies fish), (avoid_spec fishies fish),
      (align_spec fishies fish).
    rewrite cohesion_closed, avoid_closed, align_closed. repeat split.
  - intros v. eexists. apply normalize_unit_vector.
  - rewrite normalize_unit_vector, unit_vector_zero. reflexivity.
  - intros v0 a0 r0 v1 a1 r1 v2 a2 r2 f0 f1 f2.
    assert (E : included (cohesionRadius + 2 * fishSize) [f0; f1; f2] f0 = [f1; f2]).
    { unfold included. cbn [filter].
      rewrite (near_self f0 f0) by reflexivity.
      rewrite (near_in_range f0 f1), (near_in_range f0 f2); [reflexivity | |].
      - unfold in_range. rewrite distanceTo_along_x by reflexivity.
        unfold cohesionRadius, fishSize. simpl. solve_abs.
      - unfold in_range. rewrite distanceTo_along_x by reflexivity.
        unfold cohesionRadius, fishSize. simpl. solve_abs. }
    assert (Z : sub (cohesion_target [f0; f1; f2] f0) (position f0) = zero).
    { unfold cohesion_target. rewrite E. unfold mean, vdiv.
      apply vec_eq; simpl; field. }
    split; [exact Z |].
    rewrite cohesion_closed. unfold cohesion_spec. rewrite E.
    unfold steer_towards. rewrite Z, unit_vector_zero, multiplyScalar_zero.
    reflexivity.
  - intros fishies. exists (advance fishies). apply render_advance.
  - intros fishies fish. exists (stepped fishies fish).
    split; [apply update_stepped |].
    unfold stepped. cbv zeta. cbn [rotation_z velocity].
    set (v := velocity (integrate fish (net_acceleration fishies fish))).
    change (rotation_z (integrate fish (net_acceleration fishies fish)))
      with (heading v).
    destruct (heading_cases v) as (Hne & Hpos & Hneg & Hnan).
    pose proof PI_RGT_0 as Hpi.
    split; [exact Hne | split].
    + intros Hx Hy.
      destruct (Rtotal_order (y v) 0) as [Hlt | [Heq | Hgt]]; [| contradiction |].
      * eexists. split; [apply Hneg; assumption |]. solve_abs.
      * eexists. split; [apply Hpos; assumption |]. solve_abs.
    + split.
      * intros Hnone.
        destruct (Req_dec_T (x v) 0) as [Hx | Hx].
        -- split; [exact Hx |].
           destruct (Rtotal_order (y v) 0) as [Hlt | [Heq | Hgt]].
           ++ rewrite (Hneg Hx Hlt) in Hnone. discriminate.
           ++ exact Heq.
           ++ rewrite (Hpos Hx Hgt) in Hnone. discriminate.
        -- rewrite (Hne Hx) in Hnone. discriminate.
      * intros [Hx Hy]. apply Hnan; assumption.
Qed.

Lemma force_divisions_guarded_witness :
  (exists fish',
      update [mkFish zero (mk 1 0 0) zero None] (mkFish zero (mk 1 0 0) zero None)
      = Some fish'
      /\ rotation_z fish'
         = Some (atan (y (velocity fish') / x (velocity fish'))
                 - PI / 2 * JS.sign (x (velocity fish'))))
  /\ (exists fish' h,
         update [mkFish zero (mk 0 1 0) zero None] (mkFish zero (mk 0 1 0) zero None)
         = Some fish'
         /\ rotation_z fish' = Some h
         /\ Rabs h = PI / 2).
Proof.
  split.
  - destruct (proj2 (proj2 (proj2 (proj2 (proj2 force_divisions_guarded))))
                [mkFish zero (mk 1 0 0) zero None] (mkFish zero (mk 1 0 0) zero None))
      as (fish' & E & H & _).
    exists fish'. split; [exact E |]. apply H.
    rewrite update_stepped in E. injection E as <-.
    rewrite stepped_single.
    + simpl. lra.
    + reflexivity.
    + unfold within, maxFishSpeed. simpl. lra.
  - destruct (proj2 (proj2 (proj2 (proj2 (proj2 force_divisions_guarded))))
                [mkFish zero (mk 0 1 0) zero None] (mkFish zero (mk 0 1 0) zero None))
      as (fish' & E & _ & H & _).
    assert (Ev : velocity fish' = mk 0 1 0).
    { rewrite update_stepped in E. injection E as <-.
      rewrite stepped_single.
      - reflexivity.
      - reflexivity.
      - unfold within, maxFishSpeed. simpl. lra. }
    destruct H as (h & Hh & Habs).
    + rewrite Ev. reflexivity.
    + rewrite Ev. simpl. lra.
    + exists fish', h. split; [exact E | split; assumption].
Defined.

(** ** The heading is not read back *)

Lemma same_motion_eq (a b : Fish) : same_motion a b <-> motion a = motion b.
Proof.
  unfold same_motion, motion. split.
  - intros (-> & -> & ->). reflexivity.
  - intros H. injection H as -> -> ->. repeat split.
Qed.

Lemma Forall2_same_motion (l l' : list Fish) :
  Forall2 same_motion l l' <-> map motion l = map motion l'.
Proof.
  split.
  - induction 1 as [| a b l l' Hab _ IH]; simpl.
    + reflexivity.
    + apply same_motion_eq in Hab. rewrite Hab, IH. reflexivity.
  - revert l'. induction l as [| a l IH]; intros [| b l'] H; try discriminate.
    + constructor.
    + cbn [map] in H. constructor.
      * apply same_motion_eq. congruence.
      * apply IH. congruence.
Qed.

Lemma included_motion (r : R) (l : list Fish) (a : Fish) :
  included r (map motion l) (motion a) = map motion (included r l a).
Proof.
  unfold included. induction l as [| o l IH]; simpl.
  - reflexivity.
  - change (near (motion a) (motion o) r) with (near a o r).
    destruct (near a o r); simpl; rewrite IH; reflexivity.
Qed.

Lemma map_motion (g : Fish -> Vector3.t) (l : list Fish) :
  (forall o, g (motion o) = g o) -> map g (map motion l) = map g l.
Proof. intros H. rewrite map_map. apply map_ext. assumption. Qed.

Lemma map_motion_nil (l : list Fish) : map motion l = [] -> l = [].
Proof. destruct l; [reflexivity | discriminate]. Qed.

Lemma cohesion_spec_motion (l : list Fish) (a : Fish) :
  cohesion_spec (map motion l) (motion a) = cohesion_spec l a.
Proof.
  unfold cohesion_spec, cohesion_target. rewrite included_motion.
  rewrite map_motion by reflexivity.
  destruct (included _ l a); reflexivity.
Qed.

Lemma align_spec_motion (l : list Fish) (a : Fish) :
  align_spec (map motion l) (motion a) = align_spec l a.
Proof.
  unfold align_spec. rewrite included_motion.
  destruct (included _ l a) as [| o inc]; [reflexivity |].
  cbn [map]. rewrite map_motion by reflexivity. reflexivity.
Qed.

Lemma avoid_spec_motion (l : list Fish) (a : Fish) :
  avoid_spec (map motion l) (motion a) = avoid_spec l a.
Proof.
  unfold avoid_spec, avoid_average. rewrite included_motion.
  destruct (included _ l a) as [| o inc]; [reflexivity |].
  cbn [map].
  assert (E : map (repulsion (motion a)) (map motion inc) = map (repulsion a) inc).
  { rewrite map_map. apply map_ext. reflexivity. }
  rewrite E. reflexivity.
Qed.

Lemma net_acceleration_motion (l : list Fish) (a : Fish) :
  net_acceleration (map motion l) (motion a) = net_acceleration l a.
Proof.
  unfold net_acceleration.
  rewrite cohesion_spec_motion, avoid_spec_motion, align_spec_motion.
  reflexivity.
Qed.

Lemma stepped_motion (l : list Fish) (a : Fish) :
  motion (stepped l a) = motion (stepped (map motion l) (motion a)).
Proof.
  unfold stepped, integrate, motion at 1 3. cbv zeta. simpl.
  rewrite net_acceleration_motion. reflexivity.
Qed.

Lemma stepped_same_motion (l l' : list Fish) (a a' : Fish) :
  map motion l = map motion l' -> motion a = motion a' ->
  motion (stepped l a) = motion (stepped l' a').
Proof.
  intros Hl Ha. rewrite (stepped_motion l a), (stepped_motion l' a'), Hl, Ha.
  reflexivity.
Qed.

Lemma forEach_stepped_same_motion (todo : list Fish) :
  forall todo' done done',
    map motion done = map motion done' ->
    map motion todo = map motion todo' ->
    map motion (forEach_stepped done todo) = map motion (forEach_stepped done' todo').
Proof.
  induction todo as [| a rest IH]; intros [| a' rest'] done done' Hd Ht;
    try discriminate.
  - assumption.
  - cbn [map] in Ht.
    assert (Ha : motion a = motion a') by congruence.
    assert (Hr : map motion rest = map motion rest') by congruence.
    cbn [forEach_stepped].
    apply IH; [| assumption].
    rewrite !map_app. cbn [map]. f_equal; [assumption |]. f_equal.
    apply stepped_same_motion; [| assumption].
    rewrite !map_app. cbn [map]. rewrite Hd, Ha, Hr. reflexivity.
Qed.

(** ** The order of the visits *)

Lemma reflect_coord_inside (bound c : R) :
  Rabs c <= bound -> reflect_coord bound c = c.
Proof.
  intros H. unfold reflect_coord.
  destruct (Rlt_dec bound (Rabs c)); [lra | reflexivity].
Qed.

Lemma wrap_inside (p : Vector3.t) : inside p -> wrap p = p.
Proof.
  intros [Hx Hy]. rewrite wrap_reflect.
  rewrite !reflect_coord_inside by assumption. destruct p; reflexivity.
Qed.

Lemma stepped_coast (flock : list Fish) (a : Fish) :
  alone (cohesionRadius + 2 * fishSize) flock a ->
  alone avoidanceRadius flock a ->
  alone alignmentRadius flock a ->
  rested a ->
  within (- maxFishSpeed) maxFishSpeed (velocity a) ->
  inside (add (position a) (velocity a)) ->
  stepped flock a
  = mkFish (add (position a) (velocity a)) (velocity a) zero (heading (velocity a)).
Proof.
  intros Hc Ha Hl Hr Hw Hi.
  rewrite stepped_alone by assumption. cbv zeta.
  rewrite clampScalar_id by assumption. rewrite wrap_inside by assumption.
  reflexivity.
Qed.

(** In a flock of two fish on a line parallel to the [x] axis and at least
    [r] apart, neither has an agent in range [r]. *)
Lemma alone_pair_x (r : R) (a o : Fish) :
  y (position a) = y (position o) -> z (position a) = z (position o) ->
  r <= Rabs (x (position a) - x (position o)) ->
  alone r [a; o] a /\ alone r [o; a] a.
Proof.
  intros Hy Hz Hr.
  assert (Ho : ~ in_range r a o).
  { unfold in_range. rewrite distanceTo_along_x by assumption. lra. }
  assert (Ha : ~ in_range r a a).
  { unfold in_range. rewrite distanceTo_self. lra. }
  split; intros f [<- | [<- | []]]; assumption.
Qed.

(** The chaser, whoever is visited first, has nobody in range and moves
    from [0] to [4]. *)
Lemma chaser_coasts (o : Fish) :
  y (position o) = 0 -> z (position o) = 0 -> 56 <= x (position o) ->
  stepped [chaser; o] chaser
  = mkFish (mk 4 0 0) (mk 4 0 0) zero (heading (mk 4 0 0))
  /\ stepped [o; chaser] chaser
     = mkFish (mk 4 0 0) (mk 4 0 0) zero (heading (mk 4 0 0)).
Proof.
  intros Hy Hz Hx.
  assert (H : forall r, r <= 56 -> alone r [chaser; o] chaser /\ alone r [o; chaser] chaser).
  { intros r Hr. apply alone_pair_x; simpl; try congruence. solve_abs. }
  split; (rewrite stepped_coast; [f_equal; apply vec_eq; simpl; ring | ..]);
    try (apply H; unfold cohesionRadius, fishSize, avoidanceRadius, alignmentRadius; lra);
    try reflexivity;
    try (unfold within, maxFishSpeed; simpl; lra);
    unfold inside, boundaryWidth, boundaryHeight; simpl; split; solve_abs.
Qed.

(** The leader visited first, or reading the pre-tick flock, has nobody in
    range either and moves from [56] to [57] at its speed [1]. *)
Lemma leader_coasts :
  stepped [leader; chaser] leader
  = mkFish (mk 57 0 0) (mk 1 0 0) zero (heading (mk 1 0 0))
  /\ stepped [chaser; leader] leader
     = mkFish (mk 57 0 0) (mk 1 0 0) zero (heading (mk 1 0 0)).
Proof.
  assert (H : forall r, r <= 56 -> alone r [leader; chaser] leader
                                   /\ alone r [chaser; leader] leader).
  { intros r Hr. apply alone_pair_x; simpl; try reflexivity. solve_abs. }
  split; (rewrite stepped_coast; [f_equal; apply vec_eq; simpl; ring | ..]);
    try (apply H; unfold cohesionRadius, fishSize, avoidanceRadius, alignmentRadius; lra);
    try reflexivity;
    try (unfold within, maxFishSpeed; simpl; lra);
    unfold inside, boundaryWidth, boundaryHeight; simpl; split; solve_abs.
Qed.

Lemma leader_pulled :
  velocity (stepped [mkFish (mk 4 0 0) (mk 4 0 0) zero (heading (mk 4 0 0)); leader] leader)
  = mk (94 / 100) 0 0.
Proof.
  set (c' := mkFish (mk 4 0 0) (mk 4 0 0) zero (heading (mk 4 0 0))).
  assert (Hd : distanceTo (position leader) (position c') = 52).
  { rewrite distanceTo_along_x by reflexivity. simpl. solve_abs. }
  assert (Hfar : forall r, r <= 52 -> alone r [c'; leader] leader).
  { intros r Hr. apply alone_pair_x; try reflexivity. simpl. solve_abs. }
  assert (Hinc : included (cohesionRadius + 2 * fishSize) [c'; leader] leader = [c']).
  { unfold included. cbn [filter].
    rewrite (near_self leader leader) by reflexivity.
    rewrite (near_in_range leader c'); [reflexivity |].
    unfold in_range. rewrite Hd. unfold cohesionRadius, fishSize. lra. }
  assert (Hcoh : cohesion_spec [c'; leader] leader = mk (- maxFishForce) 0 0).
  { unfold cohesion_spec, cohesion_target. rewrite Hinc.
    unfold steer_towards.
    rewrite unit_vector_x_neg; [| simpl; lra ..].
    unfold clamp_pm. cbn [x y z sub multiplyScalar velocity leader].
    rewrite clamp1_low by (unfold maxFishSpeed, maxFishForce; lra).
    rewrite !clamp1_mid by (unfold maxFishSpeed, maxFishForce; lra).
    apply vec_eq; simpl; ring. }
  unfold stepped, integrate. cbv zeta. cbn [velocity].
  unfold net_acceleration. rewrite Hcoh.
  rewrite avoid_spec_alone, align_spec_alone
    by (apply Hfar; unfold avoidanceRadius, alignmentRadius; lra).
  rewrite clampScalar_id.
  - apply vec_eq; unfold maxFishForce, cohesionStrength; simpl; field.
  - unfold within, maxFishSpeed, maxFishForce, cohesionStrength. simpl. lra.
Qed.

(** C2, as stated, fails.  With the chaser at [0] and the leader at [56],
    the leader visited after the chaser reads the chaser's new position
    [4], is within the cohesion range and is pulled back ([x] velocity
    [94/100]); visited first, or reading the pre-tick flock, it has nobody
    in range and keeps its velocity [1]. *)
Lemma tick_depends_on_order :
  exists a1 b1 b2 a2 bs,
    render [chaser; leader] = Some [a1; b1]
    /\ render [leader; chaser] = Some [b2; a2]
    /\ render_snapshot [chaser; leader] = Some [a1; bs]
    /\ velocity b1 = mk (94 / 100) 0 0
    /\ velocity b2 = mk 1 0 0
    /\ velocity bs = mk 1 0 0
    /\ velocity b1 <> velocity b2.
Proof.
  assert (Hl : 56 <= x (position leader)) by (simpl; lra).
  assert (Hm : 56 <= x (position (mkFish (mk 57 0 0) (mk 1 0 0) zero (heading (mk 1 0 0)))))
    by (simpl; lra).
  exists (mkFish (mk 4 0 0) (mk 4 0 0) zero (heading (mk 4 0 0))),
    (stepped [mkFish (mk 4 0 0) (mk 4 0 0) zero (heading (mk 4 0 0)); leader] leader),
    (mkFish (mk 57 0 0) (mk 1 0 0) zero (heading (mk 1 0 0))),
    (mkFish (mk 4 0 0) (mk 4 0 0) zero (heading (mk 4 0 0))),
    (mkFish (mk 57 0 0) (mk 1 0 0) zero (heading (mk 1 0 0))).
  repeat split.
  - rewrite render_advance. unfold advance. cbn [forEach_stepped app].
    rewrite (proj1 (chaser_coasts leader eq_refl eq_refl Hl)). reflexivity.
  - rewrite render_advance. unfold advance. cbn [forEach_stepped app].
    rewrite (proj1 leader_coasts).
    rewrite (proj2 (chaser_coasts
                      (mkFish (mk 57 0 0) (mk 1 0 0) zero (heading (mk 1 0 0)))
                      eq_refl eq_refl Hm)).
    reflexivity.
  - rewrite render_snapshot_map. cbn [map].
    rewrite (proj1 (chaser_coasts leader eq_refl eq_refl Hl)), (proj2 leader_coasts).
    reflexivity.
  - apply leader_pulled.
  - rewrite leader_pulled. cbn [velocity]. intros H.
    apply (f_equal x) in H. simpl in H. lra.
Qed.

(** C2, amended.  The tick visits the agents in array order and in place:
    the agent at index [i] is updated while the array holds the post-tick
    state of the agents before [i] and the pre-tick state of the agents
    from [i] on.  Only the first agent reads the pre-tick state of all the
    others. *)
Theorem sequential_update (fishies : list Fish) :
  exists after,
    render fishies = Some after
    /\ List.length after = List.length fishies
    /\ forall i fish,
        nth_error fishies i = Some fish ->
        exists fish',
          nth_error after i = Some fish'
          /\ update (firstn i after ++ skipn i fishies) fish = Some fish'.
Proof.
  exists (advance fishies). split; [apply render_advance | split].
  - apply advance_length.
  - intros i fish Hi. eexists. split.
    + apply advance_nth. exact Hi.
    + apply update_stepped.
Qed.

Lemma sequential_update_witness :
  exists after fish',
    render [chaser; leader] = Some after
    /\ nth_error after 1 = Some fish'
    /\ update (firstn 1 after ++ skipn 1 [chaser; leader]) leader = Some fish'.
Proof.
  destruct (sequential_update [chaser; leader]) as (after & E & _ & H).
  destruct (H 1%nat leader eq_refl) as (fish' & H1 & H2).
  exists after, fish'. split; [exact E | split; [exact H1 | exact H2]].
Defined.

(** ** The acceleration between frames *)

Lemma newFish_rested (u1 u2 u3 u4 u5 : R) : rested (newFish u1 u2 u3 u4 u5).
Proof. reflexivity. Qed.

Lemma advance_n_rested (n : nat) :
  forall fishies, Forall rested fishies -> Forall rested (advance_n n fishies).
Proof.
  induction n as [| n IH]; intros fishies H; simpl.
  - assumption.
  - apply IH, advance_rested.
Qed.

(** * Further properties of the code *)

(** ** align in closed form *)



(** ** The simulation stays in the plane *)

Lemma vsum_planar (vs : list Vector3.t) :
  Forall (fun v => z v = 0) vs -> z (vsum vs) = 0.
Proof.
  induction 1 as [| v vs Hv _ IH]; simpl.
  - reflexivity.
  - fold (vsum vs). rewrite Hv, IH. ring.
Qed.

Lemma mean_planar (vs : list Vector3.t) :
  Forall (fun v => z v = 0) vs -> z (mean vs) = 0.
Proof.
  intros H. unfold mean, vdiv. cbn [z]. rewrite vsum_planar by assumption.
  unfold Rdiv. ring.
Qed.

Lemma unit_vector_planar (v : Vector3.t) : z v = 0 -> z (unit_vector v) = 0.
Proof.
  intros H. unfold unit_vector. destruct (Req_dec_T (magnitude v) 0).
  - assumption.
  - unfold vdiv. cbn [z]. rewrite H. unfold Rdiv. ring.
Qed.

Lemma steer_towards_planar (d : Vector3.t) (a : Fish) :
  z d = 0 -> z (velocity a) = 0 -> z (steer_towards d a) = 0.
Proof.
  intros Hd Hv. unfold steer_towards, clamp_pm. cbn [z sub multiplyScalar].
  rewrite unit_vector_planar, Hv by assumption.
  rewrite clamp1_mid; [ring |]. pose proof maxFishForce_pos. lra.
Qed.

Lemma included_Forall (P : Fish -> Prop) (r : R) (l : list Fish) (a : Fish) :
  Forall P l -> Forall P (included r l a).
Proof.
  intros H. apply Forall_forall. intros o Ho.
  apply included_In in Ho. destruct Ho as [Ho _].
  rewrite Forall_forall in H. apply H. assumption.
Qed.

Lemma Forall_map_z (g : Fish -> Vector3.t) (l : list Fish) :
  Forall (fun o => z (g o) = 0) l -> Forall (fun v => z v = 0) (map g l).
Proof. intros H. apply Forall_map. assumption. Qed.

Lemma net_acceleration_planar (l : list Fish) (a : Fish) :
  Forall planar l -> planar a -> z (net_acceleration l a) = 0.
Proof.
  intros Hl (Hp & Hv & Ha).
  assert (Hpos : forall r, Forall (fun v => z v = 0) (map position (included r l a))).
  { intros r. apply Forall_map_z.
    eapply Forall_impl; [| apply included_Forall; exact Hl].
    intros o (H & _). exact H. }
  assert (Hvel : forall r, Forall (fun v => z v = 0) (map velocity (included r l a))).
  { intros r. apply Forall_map_z.
    eapply Forall_impl; [| apply included_Forall; exact Hl].
    intros o (_ & H & _). exact H. }
  assert (Hrep : forall r, Forall (fun v => z v = 0) (map (repulsion a) (included r l a))).
  { intros r. apply Forall_map_z.
    eapply Forall_impl; [| apply included_Forall; exact Hl].
    intros o (H & _). unfold repulsion, vdiv. cbn [z].
    rewrite unit_vector_planar by (cbn [z sub]; rewrite Hp, H; ring).
    unfold Rdiv. ring. }
  assert (Zc : z (cohesion_spec l a) = 0).
  { unfold cohesion_spec, cohesion_target.
    destruct (included (cohesionRadius + 2 * fishSize) l a) as [| o inc] eqn:E;
      [reflexivity |].
    apply steer_towards_planar; [| assumption].
    cbn [z sub]. rewrite <- E, mean_planar, Hp by apply Hpos. ring. }
  assert (Zavg : z (avoid_average l a) = 0).
  { unfold avoid_average.
    destruct (included avoidanceRadius l a) as [| o inc] eqn:E; [reflexivity |].
    rewrite <- E. apply mean_planar, Hrep. }
  assert (Zv : z (avoid_spec l a) = 0).
  { unfold avoid_spec. cbv zeta.
    destruct (Rlt_dec 0 (magnitude (avoid_average l a))).
    - apply steer_towards_planar; assumption.
    - assumption. }
  assert (Zl : z (align_spec l a) = 0).
  { unfold align_spec.
    destruct (included alignmentRadius l a) as [| o inc] eqn:E; [reflexivity |].
    apply steer_towards_planar; [| assumption].
    rewrite <- E. apply mean_planar, Hvel. }
  unfold net_acceleration. cbn [z add multiplyScalar].
  rewrite Ha, Zc, Zv, Zl. ring.
Qed.

Lemma stepped_planar (l : list Fish) (a : Fish) :
  Forall planar l -> planar a -> planar (stepped l a).
Proof.
  intros Hl Ha. pose proof (net_acceleration_planar l a Hl Ha) as Hz.
  destruct Ha as (Hp & Hv & _).
  assert (Zv : z (velocity (stepped l a)) = 0).
  { unfold stepped, integrate. cbn [velocity z clampScalar add].
    rewrite Hv, Hz. rewrite clamp_id; [ring |]. pose proof maxFishSpeed_pos. lra. }
  repeat split.
  - rewrite stepped_position, wrap_reflect. cbn [z add]. rewrite Zv, Hp. ring.
  - exact Zv.
  - rewrite stepped_rested. reflexivity.
Qed.

(** A property of single fish kept by every step, given that the array
    has it, is kept by the frame. *)
Lemma forEach_stepped_invariant (P : Fish -> Prop) :
  (forall st a, Forall P st -> P a -> P (stepped st a)) ->
  forall todo done,
    Forall P done -> Forall P todo -> Forall P (forEach_stepped done todo).
Proof.
  intros Hstep. induction todo as [| a rest IH]; intros done Hd Ht.
  - assumption.
  - cbn [forEach_stepped]. inversion Ht as [| ? ? Ha Hr]; subst.
    apply IH; [| assumption].
    apply Forall_app. split; [assumption |].
    constructor; [| constructor].
    apply Hstep; [| assumption].
    apply Forall_app. split; assumption.
Qed.

Lemma advance_n_invariant (P : Fish -> Prop) :
  (forall st a, Forall P st -> P a -> P (stepped st a)) ->
  forall n fishies, Forall P fishies -> Forall P (advance_n n fishies).
Proof.
  intros Hstep. induction n as [| n IH]; intros fishies H; simpl.
  - assumption.
  - apply IH. apply forEach_stepped_invariant; [assumption | constructor | assumption].
Qed.

(** X4.  A flock whose positions, velocities and accelerations all have
    [z = 0] keeps this after any number of frames: the forces, the
    integration and the boundary test never leave the plane. *)
Theorem planar_flock_stays_planar (n : nat) (fishies : list Fish) :
  Forall planar fishies ->
  exists after, frames n fishies = Some after /\ Forall planar after.
Proof.
  intros H. exists (advance_n n fishies). split.
  - apply frames_advance_n.
  - apply advance_n_invariant; [| assumption].
    intros st a Hst Ha. apply stepped_planar; assumption.
Qed.

Lemma planar_flock_stays_planar_witness :
  exists after, frames 2 [chaser; leader] = Some after /\ Forall planar after.
Proof.
  apply (planar_flock_stays_planar 2 [chaser; leader]).
  repeat constructor.
Defined.

(** ** The initial flock *)

(** [Math.floor(u * bound)] for [u] in [[0, 1)] and an integer bound. *)
Lemma floor_random (u : R) (bound : Z) :
  0 <= u < 1 -> (0 < bound)%Z ->
  0 <= IZR (Int_part (u * IZR bound)) <= IZR bound - 1.
Proof.
  intros [H0 H1] Hb.
  assert (HB : 0 < IZR bound) by (apply IZR_lt; assumption).
  destruct (base_Int_part (u * IZR bound)) as [Hle Hgt].
  assert (Hr0 : 0 <= u * IZR bound) by nra.
  assert (Hr1 : u * IZR bound < IZR bound) by nra.
  assert (Hlo : (-1 < Int_part (u * IZR bound))%Z) by (apply lt_IZR; lra).
  assert (Hhi : (Int_part (u * IZR bound) < bound)%Z) by (apply lt_IZR; lra).
  split.
  - apply IZR_le. lia.
  - rewrite <- minus_IZR. apply IZR_le. lia.
Qed.

Lemma signed_abs (a : R) (b : bool) :
  0 <= a -> Rabs (a * (if b then -1 else 1)) = a.
Proof. intros H. destruct b; solve_abs. Qed.

Lemma newFish_started (u1 u2 u3 u4 u5 : R) :
  0 <= u1 < 1 -> 0 <= u3 < 1 -> well_started (newFish u1 u2 u3 u4 u5).
Proof.
  intros H1 H3.
  pose proof (floor_random u1 640 H1 eq_refl) as [Hx0 Hx1].
  pose proof (floor_random u3 320 H3 eq_refl) as [Hy0 Hy1].
  unfold well_started, rested, newFish, boundaryWidth, boundaryHeight. cbv zeta.
  cbn [position velocity acceleration x y z].
  repeat split.
  - rewrite signed_abs by assumption. lra.
  - rewrite signed_abs by assumption. lra.
  - unfold magnitude. cbn [x y z].
    replace ((cos (u5 * 2 * PI))² + (sin (u5 * 2 * PI))² + 0²) with 1.
    + apply sqrt_1.
    + rewrite <- (sin2_cos2 (u5 * 2 * PI)). unfold Rsqr. ring.
Qed.

(** X5.  A new fish, whatever [Math.random()] returns in [[0, 1)], is in
    the plane, strictly inside the boundaries ([|x| <= boundaryWidth - 1],
    [|y| <= boundaryHeight - 1]), has a velocity of length [1] and zero
    acceleration. *)
Theorem newFish_well_formed (u1 u2 u3 u4 u5 : R) :
  0 <= u1 < 1 -> 0 <= u3 < 1 ->
  Rabs (x (position (newFish u1 u2 u3 u4 u5))) <= boundaryWidth - 1
  /\ Rabs (y (position (newFish u1 u2 u3 u4 u5))) <= boundaryHeight - 1
  /\ planar (newFish u1 u2 u3 u4 u5)
  /\ magnitude (velocity (newFish u1 u2 u3 u4 u5)) = 1
  /\ acceleration (newFish u1 u2 u3 u4 u5) = zero.
Proof. intros H1 H3. exact (newFish_started u1 u2 u3 u4 u5 H1 H3). Qed.

Lemma newFish_well_formed_witness :
  magnitude (velocity (newFish (1 / 2) (1 / 4) (3 / 4) (1 / 2) 0)) = 1.
Proof.
  refine (proj1 (proj2 (proj2 (proj2
    (newFish_well_formed (1 / 2) (1 / 4) (3 / 4) (1 / 2) 0 _ _))))); lra.
Defined.

Lemma push_fish_length (rnd : nat -> R) (n : nat) :
  forall k l, List.length (push_fish n rnd k l) = (List.length l + n)%nat.
Proof.
  induction n as [| n IH]; intros k l; cbn [push_fish].
  - lia.
  - rewrite IH, length_app. simpl. lia.
Qed.

Lemma push_fish_Forall (P : Fish -> Prop) (rnd : nat -> R) :
  (forall k, P (newFish (rnd k) (rnd (k + 1)%nat) (rnd (k + 2)%nat)
                        (rnd (k + 3)%nat) (rnd (k + 4)%nat))) ->
  forall n k l, Forall P l -> Forall P (push_fish n rnd k l).
Proof.
  intros HP. induction n as [| n IH]; intros k l Hl; cbn [push_fish].
  - assumption.
  - apply IH. apply Forall_app. split; [assumption |].
    constructor; [apply HP | constructor].
Qed.

Lemma init_fishies_started (rnd : nat -> R) :
  (forall k, 0 <= rnd k < 1) ->
  List.length (init_fishies rnd) = numFish
  /\ Forall well_started (init_fishies rnd).
Proof.
  intros Hrnd.
  assert (HP : forall k, well_started
                           (newFish (rnd k) (rnd (k + 1)%nat) (rnd (k + 2)%nat)
                                    (rnd (k + 3)%nat) (rnd (k + 4)%nat))).
  { intros k. apply newFish_started; apply Hrnd. }
  unfold init_fishies. cbv zeta. split.
  - rewrite length_app, push_fish_length. reflexivity.
  - apply Forall_app. split.
    + apply push_fish_Forall; [exact HP | constructor].
    + constructor; [apply HP | constructor].
Qed.

(** X6.  [init] leaves exactly [numFish] fish in [fishies], each of them
    in the plane, strictly inside the boundaries, with a velocity of length
    [1] and zero acceleration. *)
Theorem init_flock_well_formed (rnd : nat -> R) :
  (forall k, 0 <= rnd k < 1) ->
  List.length (init_fishies rnd) = numFish
  /\ Forall (fun a =>
               Rabs (x (position a)) <= boundaryWidth - 1
               /\ Rabs (y (position a)) <= boundaryHeight - 1
               /\ planar a
               /\ magnitude (velocity a) = 1
               /\ acceleration a = zero)
            (init_fishies rnd).
Proof. intros Hrnd. exact (init_fishies_started rnd Hrnd). Qed.

Lemma init_flock_well_formed_witness :
  List.length (init_fishies (fun _ => 1 / 2)) = numFish.
Proof.
  refine (proj1 (init_flock_well_formed (fun _ => 1 / 2) _)).
  intros _. lra.
Defined.

Lemma within_unit (v : Vector3.t) :
  magnitude v = 1 -> within (- maxFishSpeed) maxFishSpeed v.
Proof.
  intros H. unfold magnitude in H.
  assert (Hs : (x v)² + (y v)² + (z v)² = 1).
  { rewrite <- (Rsqr_sqrt ((x v)² + (y v)² + (z v)²)).
    - rewrite H. unfold Rsqr. ring.
    - unfold Rsqr. nra. }
  unfold Rsqr in Hs. unfold within, maxFishSpeed. repeat split; nra.
Qed.

(** X7.  From the flock of [init], every frame yields a flock of
    [numFish] fish, all in the plane, with zero acceleration between
    frames and every velocity component within [+-maxFishSpeed]. *)
Theorem simulation_invariant (rnd : nat -> R) (n : nat) :
  (forall k, 0 <= rnd k < 1) ->
  exists after,
    frames n (init_fishies rnd) = Some after
    /\ List.length after = numFish
    /\ Forall in_flight after.
Proof.
  intros Hrnd. destruct (init_fishies_started rnd Hrnd) as [Hlen Hall].
  exists (advance_n n (init_fishies rnd)). split; [apply frames_advance_n | split].
  - rewrite <- Hlen. clear Hlen Hall. generalize (init_fishies rnd).
    induction n as [| n IH]; intros l; simpl.
    + reflexivity.
    + rewrite IH. apply advance_length.
  - apply advance_n_invariant.
    + intros st a Hst (Hr & Hp & Hw). split; [| split].
      * apply stepped_rested.
      * apply stepped_planar; [| exact Hp].
        eapply Forall_impl; [| exact Hst]. intros o (_ & H & _). exact H.
      * apply stepped_velocity_within.
    + eapply Forall_impl; [| exact Hall].
      intros a (_ & _ & Hp & Hm & Hr). split; [exact Hr | split; [exact Hp |]].
      apply within_unit. exact Hm.
Qed.

Lemma simulation_invariant_witness :
  exists after,
    frames 1 (init_fishies (fun _ => 1 / 2)) = Some after
    /\ List.length after = numFish.
Proof.
  destruct (simulation_invariant (fun _ => 1 / 2) 1) as (after & E & L & _).
  - intros _. lra.
  - exists after. split; assumption.
Defined.

(** ** The heading *)

Lemma sqrt_1_plus_sqr_pos (q : R) : 0 < sqrt (1 + q²).
Proof. apply sqrt_lt_R0. pose proof (Rle_0_sqr q). lra. Qed.

(** The length of [(vx, vy)] in terms of the slope [vy / vx]. *)
Lemma planar_speed_slope (vx vy : R) :
  vx <> 0 -> sqrt (vx² + vy²) = Rabs vx * sqrt (1 + (vy / vx)²).
Proof.
  intros H.
  replace (vx² + vy²) with (vx² * (1 + (vy / vx)²)) by (unfold Rsqr; field; assumption).
  rewrite sqrt_mult.
  - rewrite sqrt_Rsqr_abs. reflexivity.
  - apply Rle_0_sqr.
  - pose proof (Rle_0_sqr (vy / vx)). lra.
Qed.

(** X8.  When [velocity.x] is not zero the heading is the direction of the
    velocity: rotating the nose of the fish, which the mesh draws along
    [+y], by the heading gives the unit vector [(- sin h, cos h)], and this
    vector times the planar speed is [(velocity.x, velocity.y)]. *)
Theorem heading_points_along_velocity (v : Vector3.t) :
  x v <> 0 ->
  exists h,
    heading v = Some h
    /\ - sin h * sqrt ((x v)² + (y v)²) = x v
    /\ cos h * sqrt ((x v)² + (y v)²) = y v.
Proof.
  intros Hx. unfold heading. rewrite atan_div_Some by assumption. cbn [bind].
  eexists. split; [reflexivity |].
  rewrite planar_speed_slope by assumption.
  set (q := y v / x v).
  pose proof (sqrt_1_plus_sqr_pos q) as Hs.
  assert (Hq : q * x v = y v) by (unfold q; field; assumption).
  unfold JS.sign.
  destruct (Rgt_dec (x v) 0) as [Hpos | Hnpos].
  - rewrite Rabs_right by lra.
    replace (atan q - PI / 2 * 1) with (atan q - PI / 2) by ring.
    rewrite sin_minus, cos_minus, sin_PI2, cos_PI2, sin_atan, cos_atan.
    fold q. split.
    + field. lra.
    + rewrite <- Hq. field. lra.
  - destruct (Rlt_dec (x v) 0) as [Hneg | Hnneg]; [| lra].
    rewrite Rabs_left by assumption.
    replace (atan q - PI / 2 * -1) with (atan q + PI / 2) by ring.
    rewrite sin_plus, cos_plus, sin_PI2, cos_PI2, sin_atan, cos_atan.
    split.
    + field. lra.
    + rewrite <- Hq. field. lra.
Qed.

Lemma heading_points_along_velocity_witness :
  exists h,
    heading (mk (-3) 4 0) = Some h
    /\ - sin h * sqrt ((-3)² + 4²) = -3
    /\ cos h * sqrt ((-3)² + 4²) = 4.
Proof.
  apply (heading_points_along_velocity (mk (-3) 4 0)). simpl. lra.
Defined.

(** ** The boundary test, again *)

Lemma reflect_coord_involutive (bound c : R) :
  reflect_coord bound (reflect_coord bound c) = c.
Proof.
  unfold reflect_coord at 2. destruct (Rlt_dec bound (Rabs c)) as [H | H].
  - unfold reflect_coord. rewrite Rabs_Ropp.
    destruct (Rlt_dec bound (Rabs c)); [ring | contradiction].
  - unfold reflect_coord. destruct (Rlt_dec bound (Rabs c)); [contradiction | reflexivity].
Qed.

(** X9.  The boundary test is an involution: applied twice it gives the
    position back.  It never brings a position into the rectangle nor out
    of it. *)
Theorem wrap_involutive (p : Vector3.t) :
  wrap (wrap p) = p /\ (inside (wrap p) <-> inside p).
Proof.
  split.
  - rewrite (wrap_reflect (wrap p)), (wrap_reflect p). cbn [x y z].
    rewrite !reflect_coord_involutive. destruct p; reflexivity.
  - unfold inside. rewrite wrap_reflect. cbn [x y].
    rewrite !reflect_coord_abs. reflexivity.
Qed.

(** X10.  A lone fish that leaves the rectangle across a vertical boundary
    is negated to the far side, and the next frame puts it at the mirror
    image [- x] of the abscissa [x] it left from, inside the rectangle
    again. *)
Theorem lone_fish_reenters_mirrored (fish : Fish) :
  rested fish ->
  within (- maxFishSpeed) maxFishSpeed (velocity fish) ->
  Rabs (x (position fish)) <= boundaryWidth ->
  boundaryWidth < Rabs (x (position fish) + x (velocity fish)) ->
  exists fish1 fish2,
    render [fish] = Some [fish1]
    /\ render [fish1] = Some [fish2]
    /\ x (position fish1) = - (x (position fish) + x (velocity fish))
    /\ x (position fish2) = - x (position fish)
    /\ velocity fish2 = velocity fish.
Proof.
  intros Hr Hw Hin Hout.
  set (fish1 := mkFish (wrap (add (position fish) (velocity fish))) (velocity fish)
                       zero (heading (velocity fish))).
  exists fish1,
    (mkFish (wrap (add (position fish1) (velocity fish1))) (velocity fish1) zero
            (heading (velocity fish1))).
  assert (E1 : x (position fish1) = - (x (position fish) + x (velocity fish))).
  { unfold fish1. cbn [position]. rewrite wrap_reflect. cbn [x add].
    unfold reflect_coord.
    destruct (Rlt_dec boundaryWidth (Rabs (x (position fish) + x (velocity fish))));
      [reflexivity | contradiction]. }
  split; [| split; [| split; [| split]]].
  - apply render_single; assumption.
  - apply render_single; [reflexivity | exact Hw].
  - exact E1.
  - cbn [position]. rewrite wrap_reflect. cbn [x add]. rewrite E1.
    change (velocity fish1) with (velocity fish).
    replace (- (x (position fish) + x (velocity fish)) + x (velocity fish))
      with (- x (position fish)) by ring.
    rewrite reflect_coord_inside; [reflexivity |].
    rewrite Rabs_Ropp. assumption.
  - reflexivity.
Qed.

Lemma lone_fish_reenters_mirrored_witness :
  exists fish1 fish2,
    render [mkFish (mk 639 0 0) (mk 4 0 0) zero None] = Some [fish1]
    /\ render [fish1] = Some [fish2]
    /\ x (position fish1) = - (639 + 4)
    /\ x (position fish2) = - 639
    /\ velocity fish2 = mk 4 0 0.
Proof.
  apply (lone_fish_reenters_mirrored (mkFish (mk 639 0 0) (mk 4 0 0) zero None)).
  - reflexivity.
  - unfold within, maxFishSpeed. simpl. lra.
  - unfold boundaryWidth. simpl. solve_abs.
  - unfold boundaryWidth. simpl. solve_abs.
Defined.

(** ** How much a frame can turn a fish *)

Lemma clamp_step (m v a : R) :
  - m <= v <= m -> Rabs (JS.max (- m) (JS.min m (v + a)) - v) <= Rabs a.
Proof.
  intros H. unfold JS.max, JS.min, Rmax, Rmin.
  repeat destruct (Rle_dec _ _); solve_abs.
Qed.

Lemma net_acceleration_bounded (fishies : list Fish) (fish : Fish) :
  rested fish ->
  Rabs (x (net_acceleration fishies fish)) <= maxTurn
  /\ Rabs (y (net_acceleration fishies fish)) <= maxTurn
  /\ Rabs (z (net_acceleration fishies fish)) <= maxTurn.
Proof.
  intros Hr.
  destruct (cohesion_spec_bounded fishies fish) as (Hc1 & Hc2 & Hc3).
  destruct (avoid_spec_bounded fishies fish) as (Ha1 & Ha2 & Ha3).
  destruct (align_spec_bounded fishies fish) as (Hl1 & Hl2 & Hl3).
  unfold net_acceleration. rewrite Hr.
  set (c := cohesion_spec fishies fish) in *.
  set (a := avoid_spec fishies fish) in *.
  set (l := align_spec fishies fish) in *.
  revert Hc1 Hc2 Hc3 Ha1 Ha2 Ha3 Hl1 Hl2 Hl3.
  unfold maxTurn, maxFishForce, cohesionStrength, avoidanceStrength, alignmentStrength.
  cbn [x y z add multiplyScalar zero].
  intros. repeat split; solve_abs.
Qed.

(** X11.  A fish that enters the frame with zero acceleration and a
    velocity within [+-maxFishSpeed] leaves it with a velocity that
    differs, in each component, by at most
    [(cohesionStrength + avoidanceStrength + alignmentStrength) * maxFishForce],
    that is [26/100], and a position that, before the boundary test,
    differs by at most [maxFishSpeed]. *)
Theorem frame_turns_little (fishies : list Fish) (fish : Fish) :
  rested fish ->
  within (- maxFishSpeed) maxFishSpeed (velocity fish) ->
  exists fish',
    update fishies fish = Some fish'
    /\ Rabs (x (velocity fish') - x (velocity fish)) <= 26 / 100
    /\ Rabs (y (velocity fish') - y (velocity fish)) <= 26 / 100
    /\ position fish' = wrap (add (position fish) (velocity fish'))
    /\ Rabs (x (velocity fish')) <= maxFishSpeed
    /\ Rabs (y (velocity fish')) <= maxFishSpeed.
Proof.
  intros Hr (Hx & Hy & _).
  exists (stepped fishies fish). split; [apply update_stepped |].
  destruct (net_acceleration_bounded fishies fish Hr) as (Ax & Ay & _).
  destruct (stepped_velocity_within fishies fish) as (Vx & Vy & _).
  assert (K : maxTurn = 26 / 100).
  { unfold maxTurn, maxFishForce, cohesionStrength, avoidanceStrength,
      alignmentStrength. field. }
  rewrite K in Ax, Ay.
  split; [| split; [| split; [| split]]].
  - unfold stepped, integrate. cbn [velocity x clampScalar add].
    eapply Rle_trans; [apply clamp_step; exact Hx | exact Ax].
  - unfold stepped, integrate. cbn [velocity y clampScalar add].
    eapply Rle_trans; [apply clamp_step; exact Hy | exact Ay].
  - apply stepped_position.
  - revert Vx. solve_abs.
  - revert Vy. solve_abs.
Qed.

Lemma frame_turns_little_witness :
  exists fish',
    update [chaser; leader] leader = Some fish'
    /\ Rabs (x (velocity fish') - x (velocity leader)) <= 26 / 100.
Proof.
  destruct (frame_turns_little [chaser; leader] leader) as (fish' & E & H & _).
  - reflexivity.
  - unfold within, maxFishSpeed. simpl. lra.
  - exists fish'. split; assumption.
Defined.

(** ** boundaries *)

Ltac solve_clamp :=
  unfold JS.max, JS.min, Rmax, Rmin;
  repeat match goal with
         | |- context [Rle_dec ?a ?b] =>
             lazymatch a with
             | context [Rle_dec _ _] => fail
             | _ => lazymatch b with
                    | context [Rle_dec _ _] => fail
                    | _ => destruct (Rle_dec a b)
                    end
             end
         end;
  lra.

Ltac boundaries_cases fish :=
  unfold boundaries, JS.ltb, JS.gtb, boundaryWidth, boundaryHeight, boundaryMargin,
    maxFishForce in *;
  cbv zeta;
  destruct (Rlt_dec (x (position fish) - 10) (- (640)));
  destruct (Rgt_dec (x (position fish) + 10) 640);
  destruct (Rgt_dec (y (position fish) + 10) 320);
  destruct (Rlt_dec (y (position fish) - 10) (- (320)));
  unfold clampScalar, add, zero; cbn [x y z].

(** X12.  The (unused) boundary force has every component within
    [+-maxFishForce]; it is the zero vector for a fish at least
    [boundaryMargin] away from the four boundaries, and within the margin
    of a boundary its component across that boundary is [maxFishForce]
    towards the inside. *)
Theorem boundaries_pushes_inward (fish : Fish) :
  within (- maxFishForce) maxFishForce (boundaries fish)
  /\ (Rabs (x (position fish)) <= boundaryWidth - boundaryMargin ->
      Rabs (y (position fish)) <= boundaryHeight - boundaryMargin ->
      boundaries fish = zero)
  /\ (x (position fish) < - boundaryWidth + boundaryMargin ->
      x (boundaries fish) = maxFishForce)
  /\ (boundaryWidth - boundaryMargin < x (position fish) ->
      x (boundaries fish) = - maxFishForce)
  /\ (y (position fish) < - boundaryHeight + boundaryMargin ->
      y (boundaries fish) = maxFishForce)
  /\ (boundaryHeight - boundaryMargin < y (position fish) ->
      y (boundaries fish) = - maxFishForce).
Proof.
  split; [| split; [| split; [| split; [| split]]]].
  - unfold within. boundaries_cases fish; repeat split; solve_clamp.
  - intros Hx Hy.
    assert (Hx' : - (640 - 10) <= x (position fish) <= 640 - 10)
      by (revert Hx; unfold boundaryWidth, boundaryMargin; solve_abs).
    assert (Hy' : - (320 - 10) <= y (position fish) <= 320 - 10)
      by (revert Hy; unfold boundaryHeight, boundaryMargin; solve_abs).
    clear Hx Hy.
    boundaries_cases fish; try lra. apply vec_eq; cbn [x y z]; solve_clamp.
  - intros H. boundaries_cases fish; try lra; solve_clamp.
  - intros H. boundaries_cases fish; try lra; solve_clamp.
  - intros H. boundaries_cases fish; try lra; solve_clamp.
  - intros H. boundaries_cases fish; try lra; solve_clamp.
Qed.

Lemma boundaries_pushes_inward_witness :
  boundaries (mkFish zero zero zero None) = zero
  /\ x (boundaries (mkFish (mk (-635) 0 0) zero zero None)) = maxFishForce.
Proof.
  split.
  - apply (proj1 (proj2 (boundaries_pushes_inward (mkFish zero zero zero None))));
      unfold boundaryWidth, boundaryHeight, boundaryMargin; simpl; solve_abs.
  - apply (proj1 (proj2 (proj2
      (boundaries_pushes_inward (mkFish (mk (-635) 0 0) zero zero None))))).
    unfold boundaryWidth, boundaryMargin. simpl. lra.
Defined.

(** ** The plotted surface *)

(** X13.  The bounds never cut the plotted function: [f(x, y)] is
    [cos x - sin y], of absolute value at most [2], so the test of [plot]
    that leaves out a segment with both ends on the boundary never
    succeeds. *)
Theorem plot_never_clamps (px py qx qy : R) :
  Plot.f px py = cos px - sin py
  /\ Rabs (Plot.f px py) <= 2
  /\ Plot.at_bounds (Plot.f px py) (Plot.f qx qy) = false.
Proof.
  pose proof (COS_bound px) as Hc. pose proof (SIN_bound py) as Hs.
  assert (E : Plot.f px py = cos px - sin py).
  { unfold Plot.f, Plot.bounds. cbv zeta. solve_clamp. }
  assert (B : Rabs (Plot.f px py) <= 2) by (rewrite E; solve_abs).
  split; [exact E | split; [exact B |]].
  unfold Plot.at_bounds, Plot.eqb, Plot.bounds.
  destruct (Req_dec_T (Rabs (Plot.f px py)) 10) as [H | _]; [lra | reflexivity].
Qed.

(** ** The cubes demo *)

Lemma forEach_rotate_spec (time : R) (cs : list Cubes.Cube) :
  forall ndx,
    Forall (fun c => 0 <= Cubes.position_y c <= 300
                     /\ Cubes.rotation_x c = Cubes.rotation_y c)
           (Cubes.forEach_rotate time ndx cs)
    /\ map Cubes.position_x (Cubes.forEach_rotate time ndx cs)
       = map Cubes.position_x cs.
Proof.
  induction cs as [| c cs IH]; intros ndx; cbn [Cubes.forEach_rotate map].
  - split; [constructor | reflexivity].
  - destruct (IH (S ndx)) as [IH1 IH2]. split.
    + constructor; [| exact IH1].
      unfold Cubes.rotate. cbv zeta. cbn [Cubes.position_y Cubes.rotation_x Cubes.rotation_y].
      split; [| reflexivity].
      pose proof (SIN_bound (time * (1 + INR ndx * (4 / 10)))) as Hs.
      revert Hs. solve_abs.
    + rewrite IH2. reflexivity.
Qed.

(** X14.  Whatever the time, a frame of the cubes demo puts every cube at
    a height between [0] and [300], gives it the same rotation about [x]
    and [y], and leaves its abscissa as [makeInstance] set it; at time [0]
    every cube is on the ground. *)
Theorem cubes_bounce_in_place (elapsed : R) (cs : list Cubes.Cube) :
  Forall (fun c => 0 <= Cubes.position_y c <= 300
                   /\ Cubes.rotation_x c = Cubes.rotation_y c)
         (Cubes.render elapsed cs)
  /\ map Cubes.position_x (Cubes.render elapsed cs) = map Cubes.position_x cs
  /\ Forall (fun c => Cubes.position_y c = 0) (Cubes.render 0 cs).
Proof.
  unfold Cubes.render. cbv zeta.
  destruct (forEach_rotate_spec (elapsed * (1 / 1000)) cs 0%nat) as [H1 H2].
  split; [exact H1 | split; [exact H2 |]].
  clear H1 H2. generalize 0%nat.
  induction cs as [| c cs IH]; intros ndx; cbn [Cubes.forEach_rotate].
  - constructor.
  - constructor; [| apply IH].
    unfold Cubes.rotate. cbv zeta. cbn [Cubes.position_y].
    replace (0 * (1 / 1000) * (1 + INR ndx * (4 / 10))) with 0 by ring.
    rewrite sin_0, Rabs_R0. ring.
Qed.

(** ** Two fish avoiding each other *)

Lemma distanceTo_sym (p q : Vector3.t) : distanceTo p q = distanceTo q p.
Proof. unfold distanceTo, distanceToSquared. cbv zeta. f_equal. ring. Qed.

Lemma near_sym (a o : Fish) (r : R) : near a o r = near o a r.
Proof. unfold near. rewrite distanceTo_sym. reflexivity. Qed.

Lemma magnitude_neg (v : Vector3.t) : magnitude (neg v) = magnitude v.
Proof. unfold magnitude, neg. cbn [x y z]. rewrite <- !Rsqr_neg. reflexivity. Qed.

Lemma unit_vector_neg (v : Vector3.t) : unit_vector (neg v) = neg (unit_vector v).
Proof.
  unfold unit_vector. rewrite magnitude_neg.
  destruct (Req_dec_T (magnitude v) 0) as [E | E].
  - reflexivity.
  - apply vec_eq; simpl; field; assumption.
Qed.

Lemma clamp1_neg (m a : R) : 0 <= m -> clamp1 m (- a) = - clamp1 m a.
Proof.
  intros Hm. unfold clamp1.
  destruct (Rlt_dec (- a) (- m)), (Rlt_dec m (- a)), (Rlt_dec a (- m)), (Rlt_dec m a);
    lra.
Qed.

Lemma clamp_pm_neg (m : R) (v : Vector3.t) :
  0 <= m -> clamp_pm m (neg v) = neg (clamp_pm m v).
Proof.
  intros Hm. unfold clamp_pm, neg. cbn [x y z].
  rewrite !clamp1_neg by assumption. reflexivity.
Qed.

Lemma steer_towards_neg (d : Vector3.t) (a b : Fish) :
  velocity b = neg (velocity a) ->
  steer_towards (neg d) b = neg (steer_towards d a).
Proof.
  intros Hv. unfold steer_towards.
  rewrite <- clamp_pm_neg by (pose proof maxFishForce_pos; lra).
  f_equal. rewrite unit_vector_neg, Hv. apply vec_eq; simpl; ring.
Qed.

Lemma repulsion_antisym (a b : Fish) : repulsion b a = neg (repulsion a b).
Proof.
  unfold repulsion. rewrite (distanceTo_sym (position b) (position a)).
  replace (sub (position b) (position a)) with (neg (sub (position a) (position b)))
    by (apply vec_eq; simpl; ring).
  rewrite unit_vector_neg. apply vec_eq; simpl; unfold Rdiv; ring.
Qed.

Lemma neg_zero : neg zero = zero.
Proof. apply vec_eq; simpl; ring. Qed.

(** X15.  In a flock of two fish with opposite velocities (at rest, for
    instance) the avoidance forces are equal and opposite: if [avoid]
    returns [u] for one fish it returns [- u] for the other, and both are
    zero unless the fish are less than [avoidanceRadius] apart and not on
    the same spot. *)
Theorem avoid_equal_and_opposite (a b : Fish) :
  velocity b = neg (velocity a) ->
  exists u,
    avoid [a; b] a = Some u
    /\ avoid [a; b] b = Some (neg u)
    /\ (~ 0 < distanceTo (position a) (position b) < avoidanceRadius -> u = zero).
Proof.
  intros Hv. exists (avoid_spec [a; b] a).
  rewrite !avoid_closed.
  assert (Ea : included avoidanceRadius [a; b] a
               = if near a b avoidanceRadius then [b] else []).
  { unfold included. cbn [filter]. rewrite (near_self a a) by reflexivity.
    destruct (near a b avoidanceRadius); reflexivity. }
  assert (Eb : included avoidanceRadius [a; b] b
               = if near a b avoidanceRadius then [a] else []).
  { unfold included. cbn [filter]. rewrite (near_self b b) by reflexivity.
    rewrite (near_sym b a). destruct (near a b avoidanceRadius); reflexivity. }
  assert (Havg : avoid_average [a; b] b = neg (avoid_average [a; b] a)).
  { unfold avoid_average. rewrite Ea, Eb.
    destruct (near a b avoidanceRadius).
    - unfold mean, vdiv. cbn [map vsum fold_right List.length].
      rewrite repulsion_antisym. generalize (repulsion a b). intros rp.
      apply vec_eq; simpl; field.
    - symmetry. apply neg_zero. }
  split; [reflexivity | split].
  - f_equal. unfold avoid_spec. cbv zeta. rewrite Havg, magnitude_neg.
    destruct (Rlt_dec 0 (magnitude (avoid_average [a; b] a))).
    + apply steer_towards_neg. assumption.
    + reflexivity.
  - intros Hfar. apply avoid_spec_alone.
    intros o [<- | [<- | []]].
    + intros [H _]. rewrite distanceTo_self in H. lra.
    + exact Hfar.
Qed.

Lemma avoid_equal_and_opposite_witness :
  exists u,
    avoid [mkFish (mk 0 0 0) zero zero None; mkFish (mk 10 0 0) zero zero None]
          (mkFish (mk 0 0 0) zero zero None) = Some u
    /\ avoid [mkFish (mk 0 0 0) zero zero None; mkFish (mk 10 0 0) zero zero None]
             (mkFish (mk 10 0 0) zero zero None) = Some (neg u).
Proof.
  destruct (avoid_equal_and_opposite (mkFish (mk 0 0 0) zero zero None)
              (mkFish (mk 10 0 0) zero zero None)) as (u & E1 & E2 & _).
  - apply vec_eq; simpl; ring.
  - exists u. split; assumption.
Defined.

(** ** The frame and the reflection through the origin *)

Lemma distanceTo_neg (p q : Vector3.t) : distanceTo (neg p) (neg q) = distanceTo p q.
Proof. unfold distanceTo, distanceToSquared. cbv zeta. f_equal. simpl. ring. Qed.

Lemma near_flip (a o : Fish) (r : R) : near (flip a) (flip o) r = near a o r.
Proof. unfold near, flip. cbn [position]. rewrite distanceTo_neg. reflexivity. Qed.

Lemma included_flip (r : R) (l : list Fish) (a : Fish) :
  included r (map flip l) (flip a) = map flip (included r l a).
Proof.
  unfold included. induction l as [| o l IH]; cbn [map filter].
  - reflexivity.
  - rewrite near_flip. destruct (near a o r); cbn [map]; rewrite IH; reflexivity.
Qed.

Lemma mean_neg (g g' : Fish -> Vector3.t) (l : list Fish) :
  (forall o, g' (flip o) = neg (g o)) ->
  mean (map g' (map flip l)) = neg (mean (map g l)).
Proof.
  intros Hg. unfold mean. rewrite !length_map.
  assert (E : vsum (map g' (map flip l)) = neg (vsum (map g l))).
  { induction l as [| o l IH]; cbn [map vsum fold_right].
    - symmetry. apply neg_zero.
    - fold (vsum (map g' (map flip l))). fold (vsum (map g l)).
      rewrite IH, Hg. apply vec_eq; simpl; ring. }
  rewrite E. apply vec_eq; simpl; unfold Rdiv; ring.
Qed.

Lemma repulsion_flip (a o : Fish) : repulsion (flip a) (flip o) = neg (repulsion a o).
Proof.
  unfold repulsion, flip. cbn [position]. rewrite distanceTo_neg.
  replace (sub (neg (position a)) (neg (position o)))
    with (neg (sub (position a) (position o))) by (apply vec_eq; simpl; ring).
  rewrite unit_vector_neg. apply vec_eq; simpl; unfold Rdiv; ring.
Qed.

Lemma cohesion_spec_flip (l : list Fish) (a : Fish) :
  cohesion_spec (map flip l) (flip a) = neg (cohesion_spec l a).
Proof.
  unfold cohesion_spec, cohesion_target. rewrite included_flip.
  destruct (included (cohesionRadius + 2 * fishSize) l a) as [| o inc].
  - symmetry. apply neg_zero.
  - change (map flip (o :: inc)) with (flip o :: map flip inc) at 1.
    cbv iota. rewrite (mean_neg position position) by reflexivity.
    rewrite <- (steer_towards_neg _ a (flip a)) by reflexivity.
    f_equal. apply vec_eq; simpl; ring.
Qed.

Lemma align_spec_flip (l : list Fish) (a : Fish) :
  align_spec (map flip l) (flip a) = neg (align_spec l a).
Proof.
  unfold align_spec. rewrite included_flip.
  destruct (included alignmentRadius l a) as [| o inc].
  - symmetry. apply neg_zero.
  - change (map flip (o :: inc)) with (flip o :: map flip inc) at 1.
    cbv iota.
    change (flip o :: map flip inc) with (map flip (o :: inc)).
    rewrite (mean_neg velocity velocity) by reflexivity.
    apply steer_towards_neg. reflexivity.
Qed.

Lemma avoid_spec_flip (l : list Fish) (a : Fish) :
  avoid_spec (map flip l) (flip a) = neg (avoid_spec l a).
Proof.
  assert (Havg : avoid_average (map flip l) (flip a) = neg (avoid_average l a)).
  { unfold avoid_average. rewrite included_flip.
    destruct (included avoidanceRadius l a) as [| o inc].
    - symmetry. apply neg_zero.
    - change (map flip (o :: inc)) with (flip o :: map flip inc) at 1.
      cbv iota.
      change (flip o :: map flip inc) with (map flip (o :: inc)).
      apply (mean_neg (repulsion a) (repulsion (flip a))).
      intros o'. apply repulsion_flip. }
  unfold avoid_spec. cbv zeta. rewrite Havg, magnitude_neg.
  destruct (Rlt_dec 0 (magnitude (avoid_average l a))).
  - apply steer_towards_neg. reflexivity.
  - reflexivity.
Qed.

Lemma net_acceleration_flip (l : list Fish) (a : Fish) :
  net_acceleration (map flip l) (flip a) = neg (net_acceleration l a).
Proof.
  unfold net_acceleration.
  rewrite cohesion_spec_flip, avoid_spec_flip, align_spec_flip.
  apply vec_eq; simpl; ring.
Qed.

Lemma clampScalar_neg (m : R) (v : Vector3.t) :
  0 <= m -> clampScalar (neg v) (- m) m = neg (clampScalar v (- m) m).
Proof.
  intros Hm. rewrite !clampScalar_clamp_pm by assumption.
  apply clamp_pm_neg. assumption.
Qed.

Lemma reflect_coord_neg (bound c : R) :
  reflect_coord bound (- c) = - reflect_coord bound c.
Proof.
  unfold reflect_coord. rewrite Rabs_Ropp.
  destruct (Rlt_dec bound (Rabs c)); reflexivity.
Qed.

Lemma wrap_neg (p : Vector3.t) : wrap (neg p) = neg (wrap p).
Proof.
  rewrite !wrap_reflect. unfold neg. cbn [x y z].
  rewrite !reflect_coord_neg. reflexivity.
Qed.

Lemma stepped_flip (l : list Fish) (a : Fish) :
  motion (stepped (map flip l) (flip a)) = motion (flip (stepped l a)).
Proof.
  unfold stepped, integrate, motion. cbv zeta.
  cbn [position velocity acceleration].
  rewrite net_acceleration_flip.
  unfold flip. cbn [position velocity acceleration].
  replace (add (neg (velocity a)) (neg (net_acceleration l a)))
    with (neg (add (velocity a) (net_acceleration l a)))
    by (apply vec_eq; simpl; ring).
  rewrite clampScalar_neg by (pose proof maxFishSpeed_pos; lra).
  set (v' := clampScalar (add (velocity a) (net_acceleration l a))
                         (- maxFishSpeed) maxFishSpeed).
  replace (add (neg (position a)) (neg v')) with (neg (add (position a) v'))
    by (apply vec_eq; simpl; ring).
  rewrite wrap_neg, !multiplyScalar_0, neg_zero. reflexivity.
Qed.

Lemma map_motion_flip (l l' : list Fish) :
  map motion l = map motion l' -> map motion (map flip l) = map motion (map flip l').
Proof.
  revert l'. induction l as [| a l IH]; intros [| b l'] H; try discriminate.
  - reflexivity.
  - cbn [map] in *.
    assert (Hab : motion a = motion b) by congruence.
    assert (Hl : map motion l = map motion l') by congruence.
    rewrite (IH _ Hl). f_equal.
    unfold motion, flip in *. cbn [position velocity acceleration] in *.
    injection Hab as -> -> ->. reflexivity.
Qed.

Lemma forEach_stepped_flip (todo : list Fish) :
  forall done done',
    map motion done' = map motion (map flip done) ->
    map motion (forEach_stepped done' (map flip todo))
    = map motion (map flip (forEach_stepped done todo)).
Proof.
  induction todo as [| a rest IH]; intros done done' Hd.
  - assumption.
  - cbn [map forEach_stepped]. apply IH.
    rewrite !map_app. cbn [map]. f_equal; [assumption |]. f_equal.
    rewrite <- stepped_flip.
    apply stepped_same_motion; [| reflexivity].
    rewrite !map_app. cbn [map]. rewrite Hd. reflexivity.
Qed.

(** X16.  The frame commutes with the reflection through the origin:
    from the flock with every position, velocity and acceleration negated,
    a frame yields the negated positions and velocities of the frame from
    the original flock.  (The boundary test, itself a negation, is what
    makes this hold at the boundaries too.) *)
Theorem render_point_symmetric (fishies : list Fish) :
  exists after after',
    render fishies = Some after
    /\ render (map flip fishies) = Some after'
    /\ Forall2 (fun a a' => position a' = neg (position a)
                            /\ velocity a' = neg (velocity a))
               after after'.
Proof.
  exists (advance fishies), (advance (map flip fishies)).
  split; [apply render_advance | split; [apply render_advance |]].
  assert (H : map motion (advance (map flip fishies))
              = map motion (map flip (advance fishies))).
  { apply (forEach_stepped_flip fishies [] []). reflexivity. }
  apply Forall2_same_motion in H.
  assert (G : forall l l', Forall2 same_motion l' (map flip l) ->
                Forall2 (fun a a' => position a' = neg (position a)
                                     /\ velocity a' = neg (velocity a)) l l').
  { induction l as [| a l IH]; intros l' HF; inversion HF; subst.
    - constructor.
    - constructor; [| apply IH; assumption].
      match goal with Hs : same_motion _ (flip a) |- _ =>
        destruct Hs as (Hp & Hv & _) end.
      split; assumption. }
  apply G. exact H.
Qed.

(** ** The direction of the avoidance *)

Lemma magnitude_vdiv (v : Vector3.t) (d : R) :
  0 < d -> magnitude (vdiv v d) = magnitude v / d.
Proof.
  intros Hd. unfold magnitude, vdiv. cbn [x y z].
  replace ((x v / d)² + (y v / d)² + (z v / d)²)
    with (((x v)² + (y v)² + (z v)²) * (/ d)²) by (unfold Rsqr; field; lra).
  rewrite sqrt_mult.
  - rewrite sqrt_Rsqr; [reflexivity |]. left. apply Rinv_0_lt_compat. assumption.
  - unfold Rsqr. nra.
  - apply Rle_0_sqr.
Qed.

Lemma magnitude_distanceTo (p q : Vector3.t) : magnitude (sub p q) = distanceTo p q.
Proof. reflexivity. Qed.

Lemma vdiv_zero (d : R) : vdiv zero d = zero.
Proof. apply vec_eq; simpl; unfold Rdiv; ring. Qed.

Lemma unit_vector_vdiv (v : Vector3.t) (d : R) :
  0 < d -> unit_vector (vdiv v d) = unit_vector v.
Proof.
  intros Hd. unfold unit_vector. rewrite magnitude_vdiv by assumption.
  pose proof (magnitude_nonneg v) as Hm.
  destruct (Req_dec_T (magnitude v / d) 0) as [E | E];
    destruct (Req_dec_T (magnitude v) 0) as [E' | E'].
  - apply magnitude_zero_iff in E'. rewrite E'. apply vdiv_zero.
  - exfalso. apply E'.
    replace (magnitude v) with (magnitude v / d * d) by (field; lra).
    rewrite E. ring.
  - exfalso. apply E. rewrite E'. unfold Rdiv. ring.
  - apply vec_eq; simpl; field; split; lra.
Qed.

Lemma unit_vector_magnitude (v : Vector3.t) :
  magnitude v <> 0 -> magnitude (unit_vector v) = 1.
Proof.
  intros H. unfold unit_vector.
  destruct (Req_dec_T (magnitude v) 0); [contradiction |].
  pose proof (magnitude_nonneg v).
  rewrite magnitude_vdiv by lra. field. assumption.
Qed.

Lemma unit_vector_idem (v : Vector3.t) : unit_vector (unit_vector v) = unit_vector v.
Proof.
  destruct (Req_dec_T (magnitude v) 0) as [E | E].
  - unfold unit_vector at 2. destruct (Req_dec_T (magnitude v) 0); [| contradiction].
    unfold unit_vector. destruct (Req_dec_T (magnitude v) 0); [reflexivity | contradiction].
  - pose proof (unit_vector_magnitude v E) as H1.
    unfold unit_vector at 1. rewrite H1.
    destruct (Req_dec_T 1 0); [lra |].
    apply vec_eq; simpl; field.
Qed.

(** X17.  With a single other fish [b] in the flock, less than
    [avoidanceRadius] away and not on the same spot, the avoidance steers
    [a] straight away from [b]: the force is the clamp to [+-maxFishForce]
    of [normalize(a.position - b.position) * maxFishSpeed - a.velocity],
    whatever the distance. *)
Theorem avoid_pushes_away (a b : Fish) :
  0 < distanceTo (position a) (position b) < avoidanceRadius ->
  avoid [a; b] a
  = Some (clamp_pm maxFishForce
            (sub (multiplyScalar (unit_vector (sub (position a) (position b)))
                                 maxFishSpeed)
                 (velocity a))).
Proof.
  intros Hd.
  assert (Hinc : included avoidanceRadius [a; b] a = [b]).
  { unfold included. cbn [filter]. rewrite (near_self a a) by reflexivity.
    rewrite (near_in_range a b) by exact Hd. reflexivity. }
  set (d := sub (position a) (position b)).
  assert (Hmag : magnitude d <> 0).
  { unfold d. rewrite magnitude_distanceTo. lra. }
  assert (Havg : avoid_average [a; b] a
                 = vdiv (unit_vector d) (distanceTo (position a) (position b))).
  { unfold avoid_average. rewrite Hinc. unfold mean.
    cbn [map vsum fold_right List.length]. fold d.
    unfold repulsion. fold d.
    generalize (vdiv (unit_vector d) (distanceTo (position a) (position b))).
    intros r. apply vec_eq; simpl; field. }
  rewrite avoid_closed. f_equal. unfold avoid_spec. cbv zeta. rewrite Havg.
  rewrite magnitude_vdiv, unit_vector_magnitude by (assumption || lra).
  destruct (Rlt_dec 0 (1 / distanceTo (position a) (position b))) as [_ | H].
  - unfold steer_towards.
    rewrite unit_vector_vdiv, unit_vector_idem by lra. reflexivity.
  - exfalso. apply H. apply Rdiv_lt_0_compat; lra.
Qed.

Lemma avoid_pushes_away_witness :
  avoid [mkFish (mk 0 0 0) zero zero None; mkFish (mk 10 0 0) zero zero None]
        (mkFish (mk 0 0 0) zero zero None)
  = Some (clamp_pm maxFishForce
            (sub (multiplyScalar (unit_vector (sub (mk 0 0 0) (mk 10 0 0)))
                                 maxFishSpeed)
                 zero)).
Proof.
  apply (avoid_pushes_away (mkFish (mk 0 0 0) zero zero None)
           (mkFish (mk 10 0 0) zero zero None)).
  rewrite distanceTo_along_x by reflexivity. unfold avoidanceRadius. simpl. solve_abs.
Defined.
